(** * Project Recall orchestrator: signal detection and context assembly

    A shallow embedding of [services/orchestrator/main.py] and the
    properties of its signal detector, context extractor, Mem0 client and
    session handlers.

    Modelling conventions.
    - A Python [str] is a list of Unicode code points.  [str.strip],
      [str.find], [in], [len] and slicing are defined on it below.
    - [str.lower] is a parameter, called [lower] throughout: its table is
      the Unicode database, it can lengthen a string and it depends on the
      context of a letter.  A theorem holds for every [lower] unless it
      says what it assumes of it ([lower_keeps_empty], [lower_on_ascii],
      [lower [] = []]), in front of the part that needs it; closed examples
      are run with [sample_lower].
    - A Python [int] is a [Z]; slicing follows Python's rules for negative
      and out-of-range bounds.
    - A JSON value / Python [dict] is a [json]; dictionaries are finite maps
      with string keys.
    - Outbound HTTP calls are recorded in a [world]; the remote Mem0 service
      and the clock are parameters of the development.  Structured logging
      has no effect on any result and is left out. *)

From Stdlib Require Import ZArith NArith Ascii String.
From stdpp Require Import base option list gmap strings fin_maps.

Local Open Scope Z_scope.

(** ** Python strings *)

Abbreviation str := (list N).

(** String literals of the source (all of them ASCII), as [str]. *)
Definition py (s : string) : str := N_of_ascii <$> list_ascii_of_string s.

Module PyStr.

(** [str.isspace] on one character: the white space of the Unicode
    database.  TAB..CR, FS..US, SPACE, NEL, NBSP, OGHAM SPACE MARK,
    EN QUAD..HAIR SPACE, LINE and PARAGRAPH SEPARATOR, NARROW NBSP, MEDIUM
    MATHEMATICAL SPACE, IDEOGRAPHIC SPACE. *)
Definition isspace (c : N) : bool :=
  ((9 <=? c) && (c <=? 13) || (28 <=? c) && (c <=? 32)
   || (c =? 133) || (c =? 160) || (c =? 5760)
   || (8192 <=? c) && (c <=? 8202) || (c =? 8232) || (c =? 8233)
   || (c =? 8239) || (c =? 8287) || (c =? 12288))%N.

(** Code points below 128, and [str.lower] on them. *)
Definition is_ascii (c : N) : Prop := (c < 128)%N.

Definition ascii_lower (c : N) : N :=
  if ((65 <=? c) && (c <=? 90))%N then (c + 32)%N else c.

(** [s.lstrip()], [s.rstrip()], [s.strip()] *)
Fixpoint lstrip (s : str) : str :=
  match s with
  | c :: s' => if isspace c then lstrip s' else s
  | [] => []
  end.

Definition rstrip (s : str) : str := reverse (lstrip (reverse s)).

Definition strip (s : str) : str := rstrip (lstrip s).

(** [s.startswith(sub)] *)
Fixpoint startswith (sub s : str) : bool :=
  match sub, s with
  | [], _ => true
  | _ :: _, [] => false
  | a :: sub', b :: s' => bool_decide (a = b) && startswith sub' s'
  end.

(** [s.find(sub)]: the lowest index at which [sub] starts, or [-1]. *)
Fixpoint find (sub s : str) : Z :=
  if startswith sub s then 0
  else match s with
       | [] => -1
       | _ :: s' => let r := find sub s' in
                    if r =? -1 then -1 else r + 1
       end.

(** [sub in s] *)
Fixpoint contains (sub s : str) : bool :=
  startswith sub s ||
  match s with
  | [] => false
  | _ :: s' => contains sub s'
  end.

(** [len(s)] *)
Definition len {A} (s : list A) : Z := Z.of_nat (length s).

(** A slice bound [i] against a sequence of length [n]: negative bounds
    count from the end, and every bound is clamped to [0..n]. *)
Definition bound (i : Z) (n : nat) : nat :=
  if i <? 0 then Z.to_nat (Z.max 0 (Z.of_nat n + i))
  else Z.to_nat (Z.min i (Z.of_nat n)).

(** [s[lo:hi]] and [s[:hi]] *)
Definition slice {A} (lo hi : Z) (s : list A) : list A :=
  let a := bound lo (length s) in
  let b := bound hi (length s) in
  take (b - a) (drop a s).

Definition upto {A} (hi : Z) (s : list A) : list A :=
  take (bound hi (length s)) s.

End PyStr.

Import PyStr.

Global Instance is_ascii_dec c : Decision (is_ascii c).
Proof. unfold is_ascii. apply _. Defined.

(** *** What is assumed of [str.lower], where anything is *)

(** Lower-casing drops no character: only the empty string has an empty
    lower-casing. *)
Definition lower_keeps_empty (lower : str → str) : Prop :=
  ∀ s, lower s = [] ↔ s = [].

(** On ASCII text lower-casing is the ASCII one, letter by letter. *)
Definition lower_on_ascii (lower : str → str) : Prop :=
  ∀ s, Forall is_ascii s → lower s = ascii_lower <$> s.

(** *** A lower-casing to run examples with

    [sample_lower] follows [str.lower] with a small part of the Unicode
    database: the letters below U+0100, LATIN CAPITAL LETTER I WITH DOT
    ABOVE (U+0130, whose lower-casing has two code points) and the Greek
    letters, with the final form of the small sigma after a cased letter
    at the end of a word.  Other code points are left as they are. *)
Module Sample.

Definition upper (c : N) : bool :=
  ((65 <=? c) && (c <=? 90)
   || (192 <=? c) && (c <=? 222) && negb (c =? 215)
   || (913 <=? c) && (c <=? 929) || (931 <=? c) && (c <=? 939))%N.

Definition cased (c : N) : bool :=
  (upper c || (97 <=? c) && (c <=? 122)
   || (c =? 170) || (c =? 181) || (c =? 186)
   || (223 <=? c) && (c <=? 255) && negb (c =? 247)
   || (c =? 304) || (945 <=? c) && (c <=? 969))%N.

Definition to_lower_full (c : N) : str :=
  if (c =? 304)%N then [105; 775]%N
  else if upper c then [(c + 32)%N] else [c].

Fixpoint lower_from (after_cased : bool) (s : str) : str :=
  match s with
  | [] => []
  | c :: rest =>
      (if (c =? 931)%N then
         let before_cased :=
           match rest with c' :: _ => cased c' | [] => false end in
         [if after_cased && negb before_cased then 962%N else 963%N]
       else to_lower_full c)
      ++ lower_from (cased c) rest
  end.

End Sample.

Definition sample_lower (s : str) : str := Sample.lower_from false s.

(** ** Signal detection *)

Section Detector.

(** [str.lower] *)
Variable lower : str → str.

(** [SIGNAL_KEYWORDS], read from the environment at start-up. *)
Variable SIGNAL_KEYWORDS : list str.

(** The [for keyword in SIGNAL_KEYWORDS] loop of [detect_signals], with
    the list [signals] built so far. *)
Fixpoint detect_loop (text_lower : str) (keywords : list str)
    (signals : list str) : list str :=
  match keywords with
  | [] => signals
  | keyword :: rest =>
      if contains (lower (strip keyword)) text_lower
      then detect_loop text_lower rest (signals ++ [strip keyword])
      else detect_loop text_lower rest signals
  end.

Definition detect_signals (text : str) : list str :=
  let signals := [] in
  let text_lower := lower text in
  detect_loop text_lower SIGNAL_KEYWORDS signals.

(** [extract_signal_context(text, signal, window)] *)
Definition extract_signal_context (text signal : str) (window : Z) : str :=
  let text_lower := lower text in
  let pos := find (lower signal) text_lower in
  if pos =? -1 then upto window text
  else
    let start := Z.max 0 (pos - window / 2) in
    let end_ := Z.min (len text) (pos + len signal + window / 2) in
    strip (slice start end_ text).

End Detector.

Example detect_default :
  detect_signals sample_lower
    (py <$> ["remember"; "decided"; "architecture"; "important"]%string)
    (py "I remember we decided on Postgres")
  = [py "remember"; py "decided"].
Proof. reflexivity. Qed.

Example extract_abc :
  extract_signal_context sample_lower (py "abc") (py "a") 200 = py "abc".
Proof. reflexivity. Qed.

(** Greek capital alpha and sigma, and the capital I with a dot above. *)
Definition ALPHA : N := 913%N.
Definition SIGMA : N := 931%N.
Definition IDOT : N := 304%N.

Example sample_lower_final_sigma :
  sample_lower [ALPHA; SIGMA] = [945; 962]%N ∧ sample_lower [SIGMA] = [963%N].
Proof. by split. Qed.

Example sample_lower_idot : sample_lower [IDOT] = [105; 775]%N.
Proof. reflexivity. Qed.

(** ** Facts about the string operations *)

(** Case analysis on the comparisons of code points in a goal. *)
Ltac code_point_cases :=
  repeat match goal with
         | |- context [(?a <=? ?b)%N] => destruct (N.leb_spec a b)
         | |- context [(?a =? ?b)%N] => destruct (N.eqb_spec a b)
         end;
  simpl; try lia; try done.

Section SampleFacts.

Lemma sample_lower_from_nil after_cased s :
  Sample.lower_from after_cased s = [] ↔ s = [].
Proof.
  split; [|by intros ->]. destruct s as [|c rest]; [done|]. simpl.
  unfold Sample.to_lower_full.
  destruct (c =? 931)%N; [done|].
  destruct (c =? 304)%N; [done|]. by destruct (Sample.upper c).
Qed.

Lemma sample_lower_keeps_empty : lower_keeps_empty sample_lower.
Proof. intros s. apply sample_lower_from_nil. Qed.

Lemma sample_lower_from_ascii after_cased s :
  Forall is_ascii s → Sample.lower_from after_cased s = ascii_lower <$> s.
Proof.
  intros Hs. revert after_cased.
  induction Hs as [|c rest Hc _ IH]; intros after_cased; [done|].
  simpl. rewrite IH. unfold is_ascii in Hc.
  assert (E : Sample.to_lower_full c = [ascii_lower c]).
  { unfold Sample.to_lower_full, Sample.upper, ascii_lower.
    code_point_cases. }
  destruct (N.eqb_spec c 931); [lia|]. by rewrite E.
Qed.

Lemma sample_lower_on_ascii : lower_on_ascii sample_lower.
Proof. intros s. apply sample_lower_from_ascii. Qed.

End SampleFacts.

(** A closed goal that a given text is ASCII. *)
Ltac ascii_text := apply (bool_decide_unpack _); vm_compute; exact I.

Example ascii_literal : Forall is_ascii (py "Session transcript:").
Proof. ascii_text. Qed.

(** [sub] occurs in [s] as a contiguous substring. *)
Definition occurs (sub s : str) : Prop := ∃ pre post, s = pre ++ sub ++ post.

(** [t] occurs in [X] up to letter case: some substring of [X] has the same
    lower-casing as [t]. *)
Definition occurs_ci (lower : str → str) (t X : str) : Prop :=
  ∃ pre u post, X = pre ++ u ++ post ∧ lower u = lower t.

(** The test the code makes: the lower-cased [t] occurs in the lower-cased
    [X]. *)
Definition matches (lower : str → str) (t X : str) : Prop :=
  occurs (lower t) (lower X).

(** A string with no leading and no trailing white space. *)
Definition trimmed (s : str) : Prop := strip s = s.

Section StrFacts.
Implicit Types (s sub t u : str) (c : N).

Lemma startswith_prefix sub s : startswith sub s = true ↔ sub `prefix_of` s.
Proof.
  revert s; induction sub as [|a sub IH]; intros [|b s]; simpl.
  - split; [intros _; apply prefix_nil | done].
  - split; [intros _; apply prefix_nil | done].
  - split; [done | intros [k Hk]; discriminate Hk].
  - rewrite andb_true_iff, bool_decide_eq_true, IH. split.
    + intros [-> [k ->]]. by exists k.
    + intros [k Hk]. simplify_eq/=. split; [done | by exists k].
Qed.

Lemma occurs_nil s : occurs [] s.
Proof. by exists [], s. Qed.

Lemma occurs_cons sub c s :
  occurs sub (c :: s) ↔ sub `prefix_of` (c :: s) ∨ occurs sub s.
Proof.
  split.
  - intros ([|a pre] & post & H); simpl in H.
    + left. by exists post.
    + right. exists pre, post. congruence.
  - intros [[post H] | (pre & post & H)].
    + by exists [], post.
    + exists (c :: pre), post. by rewrite H.
Qed.

Lemma contains_occurs sub s : contains sub s = true ↔ occurs sub s.
Proof.
  induction s as [|c s IH]; simpl.
  - rewrite orb_false_r, startswith_prefix. split.
    + intros [k Hk]. exists [], k. done.
    + intros (pre & post & H). destruct pre, sub; by try apply prefix_nil.
  - rewrite orb_true_iff, startswith_prefix, IH. symmetry. apply occurs_cons.
Qed.

Lemma find_range sub s : -1 ≤ find sub s.
Proof.
  induction s as [|c s IH]; simpl; destruct (startswith sub _); try lia.
  destruct (Z.eqb_spec (find sub s) (-1)); lia.
Qed.

Lemma find_contains sub s : find sub s = -1 ↔ contains sub s = false.
Proof.
  induction s as [|c s IH]; simpl; destruct (startswith sub _); simpl;
    try done.
  pose proof (find_range sub s).
  destruct (Z.eqb_spec (find sub s) (-1)) as [E|E].
  - rewrite <- IH. done.
  - split; [lia |]. intros Hc. apply IH in Hc. done.
Qed.

(** Where [find] reports a position, the substring starts there. *)
Lemma find_position sub s :
  find sub s ≠ -1 →
  ∃ n : nat, find sub s = Z.of_nat n ∧ sub `prefix_of` drop n s.
Proof.
  induction s as [|c s IH]; simpl.
  - destruct (startswith sub []) eqn:E; [|done]. intros _.
    exists 0%nat. split; [done|]. by apply startswith_prefix.
  - destruct (startswith sub (c :: s)) eqn:E.
    + intros _. exists 0%nat. split; [done|]. by apply startswith_prefix.
    + destruct (Z.eqb_spec (find sub s) (-1)) as [E1|E1]; [done|].
      intros _. destruct (IH E1) as (n & Hn & Hp).
      exists (S n). split; [lia | done].
Qed.

(** And it does not start at any lower position. *)
Lemma find_first sub s (n m : nat) :
  find sub s = Z.of_nat n → (m < n)%nat → ¬ sub `prefix_of` drop m s.
Proof.
  revert n m. induction s as [|c s IH]; intros n m; simpl find.
  - destruct (startswith sub []); lia.
  - destruct (startswith sub (c :: s)) eqn:E; [lia|].
    destruct (Z.eqb_spec (find sub s) (-1)) as [E1|E1]; [lia|].
    intros Hn Hm. destruct m as [|m]; simpl.
    + intros Hp. apply startswith_prefix in Hp. congruence.
    + apply (IH (Nat.pred n)); lia.
Qed.

Lemma find_le_len sub s : find sub s ≤ len s.
Proof.
  unfold len. induction s as [|c s IH]; simpl find.
  - destruct (startswith sub []); simpl; lia.
  - destruct (startswith sub (c :: s)); [simpl; lia|].
    destruct (Z.eqb_spec (find sub s) (-1)); simpl length; lia.
Qed.

End StrFacts.

Section LowerFacts.
Context (lower : str → str).
Implicit Types (s t u X : str).

(** The code's test [t.lower() in X.lower()] decides [matches]. *)
Lemma contains_matches t X :
  contains (lower t) (lower X) = true ↔ matches lower t X.
Proof. apply contains_occurs. Qed.

Lemma find_matches t X : find (lower t) (lower X) = -1 ↔ ¬ matches lower t X.
Proof.
  rewrite find_contains, <- contains_matches. by destruct (contains _ _).
Qed.

Global Instance matches_dec t X : Decision (matches lower t X).
Proof.
  destruct (contains (lower t) (lower X)) eqn:E.
  - left. by apply contains_matches.
  - right. intros H. apply contains_matches in H. congruence.
Defined.

(** On ASCII text the test finds exactly the occurrences up to case. *)
Lemma occurs_ci_ascii t X :
  lower_on_ascii lower → Forall is_ascii X → Forall is_ascii t →
  occurs_ci lower t X ↔ matches lower t X.
Proof.
  intros Hlow HX Ht. unfold matches.
  rewrite (Hlow X HX), (Hlow t Ht). split.
  - intros (pre & u & post & -> & Hu).
    apply Forall_app in HX as [_ HX]. apply Forall_app in HX as [Hu' _].
    rewrite (Hlow u Hu'), (Hlow t Ht) in Hu.
    exists (ascii_lower <$> pre), (ascii_lower <$> post).
    by rewrite !fmap_app, Hu.
  - intros (pre & post & H).
    exists (take (length pre) X),
           (take (length t) (drop (length pre) X)),
           (drop (length t) (drop (length pre) X)).
    rewrite !take_drop. split; [done|].
    rewrite (Hlow t Ht), Hlow by by apply Forall_take, Forall_drop.
    rewrite fmap_take, fmap_drop, H, drop_app_length.
    rewrite <- (length_fmap ascii_lower t). by rewrite take_app_length.
Qed.

End LowerFacts.

(** ** The signal detector *)

Section DetectorFacts.
Context (lower : str → str).
Implicit Types (T : list str) (X s t : str).

Lemma detect_loop_filter X T signals :
  detect_loop lower (lower X) T signals
  = signals ++ filter (λ s, matches lower s X) (strip <$> T).
Proof.
  revert signals. induction T as [|keyword rest IH]; intros signals; simpl.
  - by rewrite app_nil_r.
  - rewrite filter_cons.
    destruct (contains _ _) eqn:E; case_decide as D.
    + by rewrite IH, <- app_assoc.
    + by apply contains_matches in E.
    + apply contains_matches in D. congruence.
    + apply IH.
Qed.

(** [detect_signals] keeps, in configuration order, the trimmed form of
    every configured keyword whose lower-casing occurs in the lower-cased
    text. *)
Lemma detect_signals_filter T X :
  detect_signals lower T X = filter (λ s, matches lower s X) (strip <$> T).
Proof. unfold detect_signals. by rewrite detect_loop_filter. Qed.

Lemma detect_signals_elem T X s :
  s ∈ detect_signals lower T X ↔ s ∈ strip <$> T ∧ matches lower s X.
Proof. rewrite detect_signals_filter, list_elem_of_filter. tauto. Qed.

Lemma detect_signals_no_keywords X : detect_signals lower [] X = [].
Proof. reflexivity. Qed.

Lemma contains_in_empty s : s ≠ [] → contains s [] = false.
Proof. by destruct s. Qed.

Lemma fmap_strip_trimmed T : Forall trimmed T → strip <$> T = T.
Proof.
  induction 1 as [|t T Ht _ IH]; [done|].
  unfold trimmed in Ht. by rewrite fmap_cons, Ht, IH.
Qed.

End DetectorFacts.

(** The detector contract as the specification words it, for a trigger list
    [T] and a text [X]. *)
Definition detect_contract (lower : str → str) (T : list str) (X : str)
    : Prop :=
  let result := detect_signals lower T X in
  result ⊆ T ∧ NoDup result ∧ sublist result T
  ∧ ∀ t, t ∈ T → (t ∈ result ↔ occurs_ci lower t X).


(** A keyword configured twice ([SIGNAL_KEYWORDS=remember,remember]) is
    reported twice: nothing removes duplicates. *)
Lemma detect_signals_duplicates :
  detect_signals sample_lower [py "remember"; py "remember"]
    (py "remember this")
  = [py "remember"; py "remember"].
Proof. reflexivity. Qed.

(** An entry with surrounding blanks ([SIGNAL_KEYWORDS=remember, decided])
    is reported in its trimmed form, which is not an entry of the list. *)
Lemma detect_signals_untrimmed :
  detect_signals sample_lower [py "remember"; py " decided"] (py "we decided")
  = [py "decided"].
Proof. reflexivity. Qed.



(** On the specification's trigger sets (trimmed, duplicate-free) and on
    ASCII text the contract holds as the specification words it. *)
Corollary detect_signals_contract (lower : str → str) (T : list str)
    (X : str) :
  lower_on_ascii lower → Forall (Forall is_ascii) T → Forall is_ascii X →
  Forall trimmed T → NoDup T → detect_contract lower T X.
Proof.
  intros Hlow HTa HXa Ht Hnd. pose proof (fmap_strip_trimmed T Ht) as E.
  unfold detect_contract. cbv zeta.
  rewrite detect_signals_filter, E. split_and!.
  - intros s Hs. by apply list_elem_of_filter in Hs as [_ ?].
  - by apply NoDup_filter.
  - apply sublist_filter.
  - intros t Hin. rewrite list_elem_of_filter.
    rewrite occurs_ci_ascii; [tauto | done | done |].
    by apply (proj1 (Forall_forall _ _) HTa).
Qed.

(** The empty-input contract as the specification words it. *)
Definition detect_empty_contract (lower : str → str) (T : list str)
    (X : str) : Prop :=
  (T ≠ [] → detect_signals lower T (py "") = [])
  ∧ detect_signals lower [] X = [].

(** C9, as stated, fails: a blank entry (as left by a trailing comma in
    [SIGNAL_KEYWORDS=remember,decided,]) is a substring of every text, the
    empty one included. *)
Lemma detect_signals_blank_keyword :
  ¬ detect_empty_contract sample_lower
      [py "remember"; py "decided"; py ""] (py "").
Proof. intros [H _]. by specialize (H ltac:(done)). Qed.

(** C9 (amended): for every trigger list whose entries all hold a
    non-blank character, the empty text yields no signal (lower-casing
    drops no character, so no such entry lower-cases to the empty string);
    and with no triggers configured every text yields no signal.
    [detect_signals] is a total function, so neither case raises. *)
Theorem detect_signals_empty (lower : str → str) (T : list str) (X : str) :
  Forall (λ keyword, strip keyword ≠ []) T →
  (lower_keeps_empty lower → detect_signals lower T (py "") = [])
  ∧ detect_signals lower [] X = [].
Proof.
  intros HT. split; [|done]. intros Hlow.
  unfold detect_signals. change (py "") with (@nil N).
  rewrite (proj2 (Hlow []) eq_refl).
  induction HT as [|keyword rest Hk _ IH]; [done|].
  cbn [detect_loop]. rewrite contains_in_empty; [exact IH|].
  intros E. by apply (proj1 (Hlow _)) in E.
Qed.

Lemma detect_signals_empty_witness :
  let T := py <$> ["remember"; "decided"; "architecture"; "important"]%string in
  Forall (λ keyword, strip keyword ≠ []) T
  ∧ detect_signals sample_lower T (py "") = []
  ∧ detect_signals sample_lower [] (py "remember") = [].
Proof.
  intros T.
  assert (HT : Forall (λ keyword, strip keyword ≠ []) T).
  { subst T. repeat constructor; by vm_compute. }
  split; [exact HT|].
  destruct (detect_signals_empty sample_lower T (py "remember") HT)
    as [Hempty Hnone].
  split; [exact (Hempty sample_lower_keeps_empty) | exact Hnone].
Defined.

(** ** The context extractor *)

(** The code points from [!] to U+0084 are not white space. *)
Lemma isspace_printable c : (33 ≤ c ≤ 132)%N → isspace c = false.
Proof.
  intros [H1 H2]. unfold isspace.
  repeat match goal with
         | |- context [(?a <=? ?b)%N] => destruct (N.leb_spec a b); try lia
         | |- context [(?a =? ?b)%N] => destruct (N.eqb_spec a b); try lia
         end.
Qed.

(** White space is not a letter: the ASCII lower-casing keeps it as it is,
    and makes none. *)
Lemma isspace_ascii_lower c : isspace (ascii_lower c) = isspace c.
Proof.
  unfold ascii_lower.
  destruct ((65 <=? c)%N && (c <=? 90)%N) eqn:E; [|done].
  apply andb_true_iff in E as [H1 H2].
  apply N.leb_le in H1, H2. by rewrite !isspace_printable by lia.
Qed.

(** A string whose first and last characters (if any) are not white space. *)
Definition solid (m : str) : Prop :=
  (∀ c, head m = Some c → isspace c = false)
  ∧ (∀ d, last m = Some d → isspace d = false).

Section StripFacts.
Implicit Types (s m u A B : str).

Lemma length_lstrip s : (length (lstrip s) ≤ length s)%nat.
Proof.
  induction s as [|c s IH]; simpl; [done|].
  destruct (isspace c); simpl; lia.
Qed.

Lemma length_rstrip s : (length (rstrip s) ≤ length s)%nat.
Proof.
  unfold rstrip. rewrite length_reverse.
  etrans; [apply length_lstrip|]. by rewrite length_reverse.
Qed.

Lemma length_strip s : (length (strip s) ≤ length s)%nat.
Proof.
  unfold strip. etrans; [apply length_rstrip | apply length_lstrip].
Qed.

(** [lstrip] leaves everything from a non-blank character on. *)
Lemma lstrip_keeps A c u :
  isspace c = false → ∃ A', lstrip (A ++ c :: u) = A' ++ c :: u.
Proof.
  intros Hc. induction A as [|a A IH]; simpl.
  - rewrite Hc. by exists [].
  - destruct (isspace a); [done|]. by exists (a :: A).
Qed.

Lemma rstrip_keeps u d B :
  isspace d = false → ∃ B', rstrip (u ++ d :: B) = u ++ d :: B'.
Proof.
  intros Hd. unfold rstrip.
  rewrite reverse_app, reverse_cons, <- app_assoc. simpl.
  destruct (lstrip_keeps (reverse B) d (reverse u) Hd) as [B' ->].
  exists (reverse B').
  by rewrite reverse_app, reverse_cons, reverse_involutive, <- app_assoc.
Qed.

(** [strip] keeps a non-empty solid substring whole. *)
Lemma strip_keeps A m B :
  m ≠ [] → solid m → ∃ A' B', strip (A ++ m ++ B) = A' ++ m ++ B'.
Proof.
  intros Hm [Hhd Hlast].
  destruct m as [|c m']; [done|].
  destruct (lstrip_keeps A c (m' ++ B) (Hhd c eq_refl)) as [A' HA].
  destruct (last (c :: m')) as [d|] eqn:El;
    [|by apply last_None in El].
  apply last_Some in El as [m'' Em].
  destruct (rstrip_keeps (A' ++ m'') d B (Hlast d eq_refl)) as [B' HB].
  exists A', B'. unfold strip. simpl app at 1. rewrite HA.
  change (c :: m' ++ B) with ((c :: m') ++ B). rewrite Em.
  rewrite <- !app_assoc in *. exact HB.
Qed.

Lemma trimmed_head c m : trimmed (c :: m) → isspace c = false.
Proof.
  unfold trimmed, strip. intros H. destruct (isspace c) eqn:E; [|done].
  apply (f_equal length) in H. simpl in H. rewrite E in H.
  pose proof (length_rstrip (lstrip m)). pose proof (length_lstrip m). lia.
Qed.

Lemma lstrip_suffix s : lstrip s `suffix_of` s.
Proof.
  induction s as [|c s IH]; simpl; [done|].
  destruct (isspace c); [by apply suffix_cons_r | done].
Qed.

Lemma trimmed_last m d : trimmed (m ++ [d]) → isspace d = false.
Proof.
  unfold trimmed, strip, rstrip. intros H.
  destruct (isspace d) eqn:E; [|done]. exfalso.
  destruct (lstrip_suffix (m ++ [d])) as [k Hk].
  destruct (lstrip (m ++ [d])) as [|x xs] eqn:El using rev_ind.
  - by destruct m.
  - clear IHxs. rewrite app_assoc in Hk. apply app_inj_tail in Hk as [_ <-].
    rewrite reverse_snoc in H. simpl in H. rewrite E in H.
    apply (f_equal length) in H.
    rewrite length_reverse in H.
    pose proof (length_lstrip (reverse xs)) as H1.
    rewrite length_reverse in H1.
    pose proof (length_lstrip (m ++ [d])) as H2. rewrite El in H2.
    rewrite !length_app in *. simpl in *. lia.
Qed.

Lemma trimmed_solid m : trimmed m → solid m.
Proof.
  intros Hm. split.
  - intros c Hc. apply head_Some in Hc as [m' ->]. by eapply trimmed_head.
  - intros d Hd. apply last_Some in Hd as [m' ->]. by eapply trimmed_last.
Qed.

Lemma head_fmap (f : N → N) s : head (f <$> s) = f <$> head s.
Proof. by destruct s. Qed.

(** Solidity only depends on an ASCII string up to letter case. *)
Lemma solid_ascii_lower s u :
  ascii_lower <$> u = ascii_lower <$> s → solid s → solid u.
Proof.
  intros E [Hhd Hlast]. split.
  - intros c Hc.
    assert (Hs : head (ascii_lower <$> s) = Some (ascii_lower c))
      by (by rewrite <- E, head_fmap, Hc).
    rewrite head_fmap in Hs.
    destruct (head s) as [c'|] eqn:Ec'; [|done]. simplify_eq/=.
    rewrite <- isspace_ascii_lower, <- Hs, isspace_ascii_lower. by apply Hhd.
  - intros d Hd.
    assert (Hs : last (ascii_lower <$> s) = Some (ascii_lower d))
      by (by rewrite <- E, fmap_last, Hd).
    rewrite fmap_last in Hs.
    destruct (last s) as [d'|] eqn:Ed'; [|done]. simplify_eq/=.
    rewrite <- isspace_ascii_lower, <- Hs, isspace_ascii_lower. by apply Hlast.
Qed.

End StripFacts.

Section ExtractFacts.
Context (lower : str → str).
Implicit Types (X s u : str) (w : Z).

(** A window [a..b) that covers [p..p+n) holds that stretch whole. *)
Lemma take_drop_cover {A} (l : list A) (a b p n : nat) :
  (a ≤ p)%nat → (p + n ≤ b)%nat → (p ≤ length l)%nat →
  take (b - a) (drop a l)
  = drop a (take p l) ++ take n (drop p l)
    ++ take (b - (p + n)) (drop (p + n) l).
Proof.
  intros Hap Hpb Hpl.
  rewrite take_drop_commute. replace (a + (b - a))%nat with b by lia.
  rewrite <- (drop_drop l n p), (take_take_drop (drop p l) n).
  rewrite <- (drop_app_le (take p l)) by (rewrite length_take; lia).
  rewrite take_take_drop. f_equal. f_equal. lia.
Qed.

Lemma upto_nonneg {A} (l : list A) w : 0 ≤ w → upto w l = take (Z.to_nat w) l.
Proof.
  intros Hw. unfold upto, bound.
  destruct (Z.ltb_spec w 0); [lia|].
  destruct (decide (w ≤ len l)) as [Hle|Hgt]; unfold len in *.
  - by rewrite Z.min_l.
  - rewrite Z.min_r, Nat2Z.id by lia. rewrite !take_ge; [done | lia | lia].
Qed.

Lemma length_slice {A} (l : list A) lo hi :
  0 ≤ lo → 0 ≤ hi → len (slice lo hi l) ≤ Z.max 0 (hi - lo).
Proof.
  intros Hlo Hhi. unfold slice, bound, len.
  destruct (Z.ltb_spec lo 0), (Z.ltb_spec hi 0); try lia.
  rewrite length_take, length_drop. lia.
Qed.

(** The two branches of [extract_signal_context]. *)
Lemma extract_not_found X s w :
  ¬ matches lower s X → extract_signal_context lower X s w = upto w X.
Proof.
  intros H. apply find_matches in H. unfold extract_signal_context.
  by rewrite H.
Qed.

Lemma extract_found X s w :
  matches lower s X →
  ∃ p : nat, find (lower s) (lower X) = Z.of_nat p
    ∧ lower s `prefix_of` drop p (lower X)
    ∧ extract_signal_context lower X s w
      = strip (slice (Z.max 0 (Z.of_nat p - w / 2))
                 (Z.min (len X) (Z.of_nat p + len s + w / 2)) X).
Proof.
  intros H.
  assert (Hf : find (lower s) (lower X) ≠ -1).
  { intros E. by apply find_matches in E. }
  destruct (find_position _ _ Hf) as (p & Hp & Hpre).
  exists p. split; [done|]. split; [done|].
  unfold extract_signal_context. rewrite Hp.
  destruct (Z.eqb_spec (Z.of_nat p) (-1)); [lia | done].
Qed.

(** The length bound, for every lower-casing. *)
Lemma extract_length X s w :
  0 ≤ w → len (extract_signal_context lower X s w) ≤ w + len s.
Proof.
  intros Hw.
  assert (Hhalf : 0 ≤ w / 2 ∧ 2 * (w / 2) ≤ w).
  { split; [by apply Z.div_pos | by apply Z.mul_div_le]. }
  destruct (decide (matches lower s X)) as [H|H].
  - destruct (extract_found X s w H) as (p & _ & _ & ->).
    etrans; [apply Nat2Z.inj_le, length_strip|].
    etrans; [apply length_slice; unfold len; lia|]. unfold len. lia.
  - rewrite extract_not_found, upto_nonneg by done.
    unfold len. rewrite length_take. lia.
Qed.

(** On ASCII text, the excerpt for a trimmed signal holds the signal. *)
Lemma extract_holds_signal X s w :
  0 ≤ w → lower_on_ascii lower → Forall is_ascii X → Forall is_ascii s →
  trimmed s → occurs_ci lower s X →
  occurs_ci lower s (extract_signal_context lower X s w).
Proof.
  intros Hw Hlow HX Hs Htrim Ho.
  destruct (decide (s = [])) as [->|Hne].
  { exists [], []. eexists. split; [reflexivity | done]. }
  assert (Hhalf : 0 ≤ w / 2) by by apply Z.div_pos.
  apply occurs_ci_ascii in Ho; [|done..].
  destruct (extract_found X s w Ho) as (p & _ & Hpre & ->).
  rewrite (Hlow X HX), (Hlow s Hs) in Hpre.
  set (u := take (length s) (drop p X)).
  assert (Hlen : (length (ascii_lower <$> s)
                  ≤ length (drop p (ascii_lower <$> X)))%nat)
    by by apply prefix_length.
  rewrite length_drop, !length_fmap in Hlen.
  assert (Hs0 : (0 < length s)%nat) by (destruct s; [done | simpl; lia]).
  assert (Hu : ascii_lower <$> u = ascii_lower <$> s).
  { unfold u. rewrite fmap_take, fmap_drop.
    destruct Hpre as [k ->]. rewrite <- (length_fmap ascii_lower s).
    apply take_app_length. }
  assert (Hua : Forall is_ascii u) by by apply Forall_take, Forall_drop.
  assert (Hun : u ≠ []).
  { intros E. rewrite E in Hu. by destruct s. }
  unfold slice, bound, len.
  repeat match goal with
         | |- context [?z <? 0] => destruct (Z.ltb_spec z 0); [lia|]
         end.
  rewrite (take_drop_cover X _ _ p (length s)) by lia.
  fold u.
  match goal with
  | |- occurs_ci _ _ (strip (?A ++ u ++ ?B)) =>
      destruct (strip_keeps A u B Hun) as (A' & B' & ->)
  end.
  { eapply solid_ascii_lower; [exact Hu | by apply trimmed_solid]. }
  exists A', u, B'. split; [done|]. by rewrite (Hlow u Hua), (Hlow s Hs).
Qed.

End ExtractFacts.

(** The extractor contract as the specification words it. *)
Definition extract_contract (lower : str → str) (X s : str) (w : Z) : Prop :=
  let excerpt := extract_signal_context lower X s w in
  len excerpt ≤ w + len s
  ∧ (occurs_ci lower s X → occurs_ci lower s excerpt)
  ∧ (¬ occurs_ci lower s X → excerpt = take (Z.to_nat w) X).


(** A negative window breaks the length bound as well. *)
Lemma extract_signal_context_negative_window :
  ¬ extract_contract sample_lower (py "remember") (py "remember") (-20).
Proof. intros (Hlen & _). by vm_compute in Hlen. Qed.

(** Where lower-casing lengthens the text before the signal, the position
    found in the lower-cased text lies further right in the text itself,
    and the excerpt misses the signal: here it is [py "nothing"]. *)
Lemma extract_signal_context_shifted :
  extract_signal_context sample_lower
    (replicate 8 IDOT ++ py "decided nothing") (py "decided") 0
  = py "nothing".
Proof. reflexivity. Qed.


(** ** JSON values and the Mem0 service *)

(** Values of Python's [json] module; an object is a [dict] keyed by
    strings.  Numbers are integers: no fractional number occurs in the
    code. *)
#[warnings="-register-all"]
Inductive json :=
  | JNull
  | JBool (b : bool)
  | JInt (n : Z)
  | JStr (s : str)
  | JList (l : list json)
  | JDict (d : gmap string json).

(** An [Optional[str]] as a JSON value. *)
Definition opt_str (o : option str) : json :=
  match o with Some s => JStr s | None => JNull end.

(** Truth value of an [Optional[str]]: [None] and [""] are false. *)
Definition truthy (o : option str) : bool :=
  match o with Some (_ :: _) => true | _ => false end.

(** [{**base, **extra}]: the keys of [extra] override those of [base]. *)
Definition spread (base extra : gmap string json) : gmap string json :=
  extra ∪ base.

(** [len(v)] and [v[:n]] on a JSON value, where Python defines them. *)
Definition json_len (v : json) : option Z :=
  match v with
  | JList l => Some (len l)
  | JStr s => Some (len s)
  | JDict d => Some (Z.of_nat (size d))
  | _ => None
  end.

Definition json_upto (n : Z) (v : json) : option json :=
  match v with
  | JList l => Some (JList (upto n l))
  | JStr s => Some (JStr (upto n s))
  | _ => None
  end.

(** An outbound HTTP request, with its path under [MEM0_API_URL]:
    [client.post(url, json=body)] or [client.get(url, params=params)]. *)
Inductive request :=
  | POST (path : string) (body : json)
  | GET (path : string) (params : json).

(** What a handler has done so far: the requests sent to Mem0, oldest
    first, and how often the clock was read. *)
Record world := World { sent : list request; clock_reads : nat }.

(** Exceptions: a failed request ([httpx] transport errors,
    [raise_for_status], a body that is not JSON), [.get] on a value that is
    not a [dict], [len] or a slice of a value that has none. *)
Inductive exn := HTTPError | AttributeError | TypeError.

(** Computations that send requests, read the clock and may raise. *)
Definition M (A : Type) : Type := world → (exn + A) * world.

Global Instance M_ret : MRet M := λ A a w, (inr a, w).

Global Instance M_bind : MBind M := λ A B f m w,
  match m w with
  | (inr a, w') => f a w'
  | (inl e, w') => (inl e, w')
  end.

Definition raise {A} (e : exn) : M A := λ w, (inl e, w).

Definition lift {A} (e : exn) (o : option A) : M A :=
  match o with Some a => mret a | None => raise e end.

(** [v.get(key, default)] *)
Definition dict_get (v : json) (key : string) (default : json) : M json :=
  match v with
  | JDict d => mret (match d !! key with Some x => x | None => default end)
  | _ => raise AttributeError
  end.

(** ** Request and response models *)

Record SessionStart := {
  start_user_id : str;
  start_project_id : option str;
  query : option str
}.

Record SessionEnd := {
  end_user_id : str;
  end_project_id : option str;
  transcript : str
}.

(** The [context] object of the session-start response. *)
Record context_bundle := { recent : json; relevant : json }.

(** The session-start response
    [{status, user_id, project_id, memories_count, context}]. *)
Record start_response := {
  start_status : str;
  start_owner : str;
  start_project : option str;
  memories_count : Z;
  context : context_bundle
}.

(** One entry [{signal, memory_id}] of [memories_captured]. *)
Record capture := { signal : str; memory_id : json }.

(** The session-end response
    [{status, signals_detected, memories_captured}]. *)
Record end_response := {
  end_status : str;
  signals_detected : list str;
  memories_captured : list capture
}.

(** What a route handler hands back: its response, or the
    [HTTPException(status_code=500)] raised by its [except] clause. *)
Inductive reply (A : Type) :=
  | Ok (response : A)
  | HTTP500 (detail : exn).
Arguments Ok {A} response.
Arguments HTTP500 {A} detail.

(** ** The Mem0 client and the session handlers *)

Section Orchestrator.

(** [str.lower] *)
Variable lower : str → str.

(** The remote service: given the requests it has received before and a
    new request, the JSON body of its answer, or [None] when the request
    fails. *)
Variable MEM0 : list request → request → option json.

(** [datetime.now(timezone.utc).isoformat()] at the [n]-th reading. *)
Variable utcnow : nat → str.

Variable SIGNAL_KEYWORDS : list str.

Definition now : M str := λ w,
  (inr (utcnow (clock_reads w)),
   World (sent w) (S (clock_reads w))).

(** Send a request; [raise_for_status] and [response.json()] included. *)
Definition send (r : request) : M json := λ w,
  let w' := World (sent w ++ [r]) (clock_reads w) in
  match MEM0 (sent w) r with
  | Some body => (inr body, w')
  | None => (inl HTTPError, w')
  end.

(** The [metadata] object of the payload of [mem0_add]. *)
Definition add_metadata (project_id : option str) (captured_at : str)
    (metadata : option (gmap string json)) : gmap string json :=
  spread {[ "project_id" := opt_str project_id;
            "captured_at" := JStr captured_at ]}
         (default ∅ metadata).

(** The [payload] of [mem0_add]. *)
Definition add_payload (content user_id : str) (project_id : option str)
    (captured_at : str) (metadata : option (gmap string json))
    : gmap string json :=
  {[ "messages" := JList [JDict {[ "role" := JStr (py "user");
                                   "content" := JStr content ]}];
     "user_id" := JStr user_id;
     "metadata" := JDict (add_metadata project_id captured_at metadata) ]}.

Definition mem0_add (content user_id : str) (project_id : option str)
    (metadata : option (gmap string json)) : M json :=
  captured_at ← now;
  let payload := add_payload content user_id project_id captured_at metadata in
  send (POST "/v1/memories/" (JDict payload)).

Definition search_params (query : str) (user_id project_id : option str)
    (limit : Z) : gmap string json :=
  let params := {[ "query" := JStr query; "limit" := JInt limit ]} in
  let params :=
    if truthy user_id then <["user_id" := opt_str user_id]> params
    else params in
  let params :=
    if truthy project_id
    then <["filters" := JDict {[ "project_id" := opt_str project_id ]}]> params
    else params in
  params.

Definition mem0_search (query : str) (user_id project_id : option str)
    (limit : Z) : M json :=
  send (POST "/v1/memories/search/"
          (JDict (search_params query user_id project_id limit))).

Definition mem0_get_all (user_id : str) (project_id : option str) : M json :=
  let params := {[ "user_id" := JStr user_id ]} in
  send (GET "/v1/memories/" (JDict params)).

(** The body of the [try] block of [session_start]. *)
Definition session_start_body (req : SessionStart) : M start_response :=
  memories ← mem0_get_all (start_user_id req) (start_project_id req);
  relevant ←
    (if truthy (query req)
     then
       search_results ← mem0_search (default [] (query req))
                          (Some (start_user_id req))
                          (start_project_id req) 5;
       dict_get search_results "results" (JList [])
     else mret (JList []));
  results ← dict_get memories "results" (JList []);
  count ← lift TypeError (json_len results);
  results ← dict_get memories "results" (JList []);
  first10 ← lift TypeError (json_upto 10 results);
  mret {| start_status := py "ok";
          start_owner := start_user_id req;
          start_project := start_project_id req;
          memories_count := count;
          context := {| recent := first10; relevant := relevant |} |}.

(** [try: ... except Exception as e: raise HTTPException(500, ...)] *)
Definition handler {A} (body : M A) (w : world) : reply A * world :=
  match body w with
  | (inr response, w') => (Ok response, w')
  | (inl e, w') => (HTTP500 e, w')
  end.

Definition session_start (req : SessionStart) : world → reply start_response * world :=
  handler (session_start_body req).

(** The [for signal in signals] loop of [session_end], with the list
    [captured] built so far. *)
Fixpoint capture_loop (req : SessionEnd) (signals : list str)
    (captured : list capture) : M (list capture) :=
  match signals with
  | [] => mret captured
  | signal :: rest =>
      let context := extract_signal_context lower (transcript req) signal 200 in
      result ← mem0_add context (end_user_id req) (end_project_id req)
                 (Some {[ "signal" := JStr signal;
                          "source" := JStr (py "auto-capture") ]});
      id ← dict_get result "id" JNull;
      capture_loop req rest
        (captured ++ [{| signal := signal; memory_id := id |}])
  end.

(** The body of the [try] block of [session_end]. *)
Definition session_end_body (req : SessionEnd) : M end_response :=
  let signals := detect_signals lower SIGNAL_KEYWORDS (transcript req) in
  captured ← capture_loop req signals [];
  _ ← (if 100 <? len (transcript req)
       then
         mem0_add (py "Session transcript:" ++ [10%N]
                     ++ upto 5000 (transcript req))
           (end_user_id req) (end_project_id req)
           (Some {[ "source" := JStr (py "session-end");
                    "full_transcript" := JBool true ]})
       else mret JNull);
  mret {| end_status := py "ok";
          signals_detected := signals;
          memories_captured := captured |}.

Definition session_end (req : SessionEnd) : world → reply end_response * world :=
  handler (session_end_body req).

End Orchestrator.

(** ** Test doubles *)

(** A fake Mem0 that answers the [n]-th request it receives with the
    [n]-th entry of a script, and fails once the script is exhausted. *)
Definition scripted (script : list (option json))
    (history : list request) (r : request) : option json :=
  default None (script !! length history).

(** A clock that shows a different time at every reading. *)
Definition ticking (n : nat) : str :=
  py "2024-05-01T12:00:0" ++ [N.of_nat (48 + n)] ++ py "+00:00".

(** A stored record as Mem0 answers an [add]. *)
Definition stored (id : string) : json := JDict {[ "id" := JStr (py id) ]}.

(** A fresh handler invocation. *)
Definition start_of_request : world := World [] 0.

(** ** The [add] operation of the gateway *)

Section AddFacts.
Context (MEM0 : list request → request → option json) (utcnow : nat → str).
Implicit Types (content user_id : str) (project_id : option str)
  (metadata : option (gmap string json)) (w : world).

(** [mem0_add] reads the clock once and sends one [POST] with the
    payload built from that reading. *)
Lemma mem0_add_run content user_id project_id metadata w :
  mem0_add MEM0 utcnow content user_id project_id metadata w
  = let r := POST "/v1/memories/"
               (JDict (add_payload content user_id project_id
                         (utcnow (clock_reads w)) metadata)) in
    let w' := World (sent w ++ [r]) (S (clock_reads w)) in
    match MEM0 (sent w) r with
    | Some body => (inr body, w')
    | None => (inl HTTPError, w')
    end.
Proof. reflexivity. Qed.

Lemma mem0_add_sent content user_id project_id metadata w :
  sent (mem0_add MEM0 utcnow content user_id project_id metadata w).2
  = sent w ++ [POST "/v1/memories/"
                 (JDict (add_payload content user_id project_id
                           (utcnow (clock_reads w)) metadata))].
Proof. rewrite mem0_add_run. simpl. by destruct (MEM0 _ _). Qed.

Lemma add_metadata_caller project_id captured_at metadata k v :
  default ∅ metadata !! k = Some v →
  add_metadata project_id captured_at metadata !! k = Some v.
Proof.
  intros H. unfold add_metadata, spread. by apply lookup_union_Some_l.
Qed.

Lemma add_metadata_injected project_id captured_at metadata k :
  default ∅ metadata !! k = None →
  add_metadata project_id captured_at metadata !! k
  = ({[ "project_id" := opt_str project_id;
        "captured_at" := JStr captured_at ]} : gmap string json) !! k.
Proof.
  intros H. unfold add_metadata, spread. by apply lookup_union_r.
Qed.

Lemma add_metadata_has_timestamp project_id captured_at metadata :
  is_Some (add_metadata project_id captured_at metadata !! "captured_at").
Proof.
  destruct (default ∅ metadata !! "captured_at") as [v|] eqn:E.
  - exists v. by apply add_metadata_caller.
  - rewrite add_metadata_injected by done. by eexists.
Qed.

Lemma add_payload_dom content user_id project_id captured_at metadata :
  dom (add_payload content user_id project_id captured_at metadata)
  = {[ "messages"; "user_id"; "metadata" ]}.
Proof. unfold add_payload. rewrite !dom_insert_L, dom_singleton_L. set_solver. Qed.

End AddFacts.

(** What a call of [mem0_add] puts on the wire. *)
Definition add_request_of (MEM0 : list request → request → option json)
    (utcnow : nat → str) (content user_id : str) (project_id : option str)
    (metadata : option (gmap string json)) (w : world)
    (payload : gmap string json) : Prop :=
  sent (mem0_add MEM0 utcnow content user_id project_id metadata w).2
  = sent w ++ [POST "/v1/memories/" (JDict payload)].

(** The metadata rule as the specification words it: the time stamp is
    always the gateway's fresh one, every other key is the caller's. *)
Definition add_metadata_contract (MEM0 : list request → request → option json)
    (utcnow : nat → str) (content user_id : str) (project_id : option str)
    (metadata : option (gmap string json)) (w : world) : Prop :=
  ∃ payload m,
    add_request_of MEM0 utcnow content user_id project_id metadata w payload
    ∧ payload !! "metadata" = Some (JDict m)
    ∧ m !! "captured_at" = Some (JStr (utcnow (clock_reads w)))
    ∧ ∀ k v, k ≠ "captured_at" →
        default ∅ metadata !! k = Some v → m !! k = Some v.

(** C3, as stated, fails: a caller that passes its own [captured_at]
    overrides the gateway's time stamp, like any other key. *)
Lemma mem0_add_caller_timestamp :
  ¬ add_metadata_contract (scripted [Some (stored "m1")]) ticking
      (py "we decided on Postgres") (py "alice") (Some (py "recall"))
      (Some {[ "captured_at" := JStr (py "1999-12-31T23:59:59+00:00") ]})
      start_of_request.
Proof.
  intros (payload & m & Hsent & Hmeta & Hts & _).
  unfold add_request_of in Hsent. rewrite mem0_add_sent in Hsent.
  apply app_inv_head in Hsent. injection Hsent as <-.
  unfold add_payload in Hmeta.
  rewrite lookup_insert_ne, lookup_insert_ne, lookup_singleton_eq in Hmeta
    by done.
  injection Hmeta as <-.
  rewrite (add_metadata_caller _ _ _ _
             (JStr (py "1999-12-31T23:59:59+00:00"))) in Hts.
  - by injection Hts.
  - apply lookup_singleton_eq.
Qed.

(** C3 (amended): for every call of [mem0_add] with any caller metadata,
    the metadata of the payload holds a [captured_at] key, and on every key
    collision the caller's value wins, the time stamp included; the value of
    [captured_at] is the gateway's fresh clock reading whenever the caller
    supplies none. *)
Theorem mem0_add_metadata (MEM0 : list request → request → option json)
    (utcnow : nat → str) (content user_id : str) (project_id : option str)
    (metadata : option (gmap string json)) (w : world) :
  let fresh := utcnow (clock_reads w) in
  let payload := add_payload content user_id project_id fresh metadata in
  let m := add_metadata project_id fresh metadata in
  add_request_of MEM0 utcnow content user_id project_id metadata w payload
  ∧ payload !! "metadata" = Some (JDict m)
  ∧ is_Some (m !! "captured_at")
  ∧ (∀ k v, default ∅ metadata !! k = Some v → m !! k = Some v)
  ∧ (default ∅ metadata !! "captured_at" = None →
     m !! "captured_at" = Some (JStr fresh)).
Proof.
  intros fresh payload m. split_and!.
  - apply mem0_add_sent.
  - unfold payload, add_payload.
    by rewrite lookup_insert_ne, lookup_insert_ne, lookup_singleton_eq.
  - apply add_metadata_has_timestamp.
  - apply add_metadata_caller.
  - intros H. unfold m. by rewrite add_metadata_injected.
Qed.

Lemma mem0_add_metadata_witness :
  let metadata : gmap string json :=
    {[ "signal" := JStr (py "decided"); "source" := JStr (py "auto-capture") ]} in
  let m := add_metadata (Some (py "recall")) (ticking 0) (Some metadata) in
  m !! "captured_at" = Some (JStr (py "2024-05-01T12:00:00+00:00"))
  ∧ m !! "signal" = Some (JStr (py "decided")).
Proof.
  intros metadata m.
  pose proof (mem0_add_metadata (scripted [Some (stored "m1")]) ticking
                (py "we decided on Postgres") (py "alice")
                (Some (py "recall")) (Some metadata) start_of_request)
    as (_ & _ & _ & Hcaller & Hfresh).
  split.
  - apply Hfresh. reflexivity.
  - apply Hcaller. reflexivity.
Defined.

(** A value that sits directly under some key of a payload. *)
Definition top_level (payload : gmap string json) (v : json) : Prop :=
  ∃ k, payload !! k = Some v.

(** The payload shape as the specification words it: four top-level
    fields, for the content, the owner, the project and the metadata. *)
Definition add_shape_contract (MEM0 : list request → request → option json)
    (utcnow : nat → str) (content user_id : str) (project_id : option str)
    (metadata : option (gmap string json)) (w : world) : Prop :=
  ∃ payload m,
    add_request_of MEM0 utcnow content user_id project_id metadata w payload
    ∧ size payload = 4%nat
    ∧ top_level payload (JStr content)
    ∧ top_level payload (JStr user_id)
    ∧ top_level payload (opt_str project_id)
    ∧ payload !! "metadata" = Some (JDict m)
    ∧ is_Some (m !! "captured_at").

(** C4, as stated, fails: the payload has three top-level fields, and the
    project identifier is not one of them. *)
Lemma mem0_add_three_fields :
  ¬ add_shape_contract (scripted [Some (stored "m1")]) ticking
      (py "we decided on Postgres") (py "alice") (Some (py "recall"))
      None start_of_request.
Proof.
  intros (payload & m & Hsent & Hsize & _).
  unfold add_request_of in Hsent. rewrite mem0_add_sent in Hsent.
  apply app_inv_head in Hsent. injection Hsent as <-.
  rewrite <- size_dom, add_payload_dom in Hsize.
  by vm_compute in Hsize.
Qed.

(** C4 (amended): for every call of [mem0_add], the payload has exactly
    the three top-level fields [messages] (one user message that carries the
    content), [user_id] (the owner) and [metadata]; the project identifier
    travels inside [metadata] under [project_id] (where the caller's
    metadata has no such key), next to a [captured_at] time stamp that is
    always there. *)
Theorem mem0_add_payload_shape (MEM0 : list request → request → option json)
    (utcnow : nat → str) (content user_id : str) (project_id : option str)
    (metadata : option (gmap string json)) (w : world) :
  let fresh := utcnow (clock_reads w) in
  let payload := add_payload content user_id project_id fresh metadata in
  let m := add_metadata project_id fresh metadata in
  add_request_of MEM0 utcnow content user_id project_id metadata w payload
  ∧ dom payload = {[ "messages"; "user_id"; "metadata" ]}
  ∧ payload !! "messages"
    = Some (JList [JDict {[ "role" := JStr (py "user");
                            "content" := JStr content ]}])
  ∧ payload !! "user_id" = Some (JStr user_id)
  ∧ payload !! "metadata" = Some (JDict m)
  ∧ is_Some (m !! "captured_at")
  ∧ (default ∅ metadata !! "project_id" = None →
     m !! "project_id" = Some (opt_str project_id)).
Proof.
  intros fresh payload m. split_and!.
  - apply mem0_add_sent.
  - apply add_payload_dom.
  - apply lookup_insert_eq.
  - unfold payload, add_payload.
    by rewrite lookup_insert_ne, lookup_insert_eq.
  - unfold payload, add_payload.
    by rewrite lookup_insert_ne, lookup_insert_ne, lookup_singleton_eq.
  - apply add_metadata_has_timestamp.
  - intros H. unfold m. by rewrite add_metadata_injected.
Qed.

Lemma mem0_add_payload_shape_witness :
  let m := add_metadata (Some (py "recall")) (ticking 0) None in
  m !! "project_id" = Some (JStr (py "recall")).
Proof.
  intros m.
  pose proof (mem0_add_payload_shape (scripted [Some (stored "m1")]) ticking
                (py "we decided on Postgres") (py "alice")
                (Some (py "recall")) None start_of_request)
    as (_ & _ & _ & _ & _ & _ & Hproject).
  apply Hproject. reflexivity.
Defined.

(** ** Session start *)

(** The two requests [session_start] can send. *)
Definition list_request (req : SessionStart) : request :=
  GET "/v1/memories/" (JDict {[ "user_id" := JStr (start_user_id req) ]}).

Definition search_request (req : SessionStart) : request :=
  POST "/v1/memories/search/"
    (JDict (search_params (default [] (query req))
              (Some (start_user_id req)) (start_project_id req) 5)).

(** [body.get("results", [])] of an answer that is a JSON object. *)
Definition results_of (d : gmap string json) : json :=
  default (JList []) (d !! "results").


Section StartFacts.
Context (MEM0 : list request → request → option json).
Implicit Types (req : SessionStart) (w : world).



(** What a successful session start has seen and returns. *)
Lemma session_start_ok req w resp w' :
  session_start MEM0 req w = (Ok resp, w') →
  ∃ d results,
    MEM0 (sent w) (list_request req) = Some (JDict d)
    ∧ results = results_of d
    ∧ json_len results = Some (memories_count resp)
    ∧ json_upto 10 results = Some (recent (context resp))
    ∧ start_owner resp = start_user_id req
    ∧ start_project resp = start_project_id req
    ∧ if truthy (query req)
      then ∃ d', MEM0 (sent w ++ [list_request req]) (search_request req)
                 = Some (JDict d')
                 ∧ relevant (context resp) = results_of d'
      else relevant (context resp) = JList [].
Proof.
  unfold session_start, handler, session_start_body, mem0_get_all,
    mem0_search, send, dict_get, lift, raise, mbind, M_bind, mret, M_ret.
  fold (list_request req). fold (search_request req). simpl.
  intros H. unfold results_of.
  destruct (MEM0 (sent w) (list_request req)) as [memories|] eqn:E1;
    simpl in H; [|done].
  destruct (truthy (query req)); simpl in H.
  - repeat (case_match; simplify_eq/=; try done);
      (eexists _, _; split_and!; try done; try (by simplify_option_eq));
      (eexists; split; [done|]); by simplify_option_eq.
  - repeat (case_match; simplify_eq/=; try done);
      by (eexists _, _; split_and!; simplify_option_eq).
Qed.

End StartFacts.








(** C8: for every successful [session_start], [memories_count] is the
    number of records the listing returned, however many, and [recent] is
    exactly the first 10 of them, in the order the service returned them. *)
Theorem session_start_recent (MEM0 : list request → request → option json)
    (req : SessionStart) (w : world) (resp : start_response) (w' : world) :
  session_start MEM0 req w = (Ok resp, w') →
  ∃ d, MEM0 (sent w) (list_request req) = Some (JDict d)
    ∧ json_len (results_of d) = Some (memories_count resp)
    ∧ json_upto 10 (results_of d) = Some (recent (context resp))
    ∧ ∀ records, results_of d = JList records →
        memories_count resp = len records
        ∧ recent (context resp) = JList (take 10 records).
Proof.
  intros Hrun.
  destruct (session_start_ok MEM0 req w resp w' Hrun)
    as (d & results & Hd & -> & Hlen & Hupto & _).
  exists d. split_and!; try done.
  intros records E. rewrite E in Hlen, Hupto. simpl in Hlen, Hupto.
  rewrite upto_nonneg in Hupto by lia. by simplify_eq.
Qed.

(** Twelve records, more than the cap. *)
Definition twelve_records : list json :=
  stored <$> ["m01"; "m02"; "m03"; "m04"; "m05"; "m06";
              "m07"; "m08"; "m09"; "m10"; "m11"; "m12"]%string.

Lemma session_start_recent_witness :
  let MEM0 := scripted [Some (JDict {[ "results" := JList twelve_records ]})] in
  let req := {| start_user_id := py "alice";
                start_project_id := Some (py "recall"); query := None |} in
  ∃ resp w', session_start MEM0 req start_of_request = (Ok resp, w')
    ∧ memories_count resp = 12
    ∧ recent (context resp) = JList (take 10 twelve_records).
Proof.
  intros MEM0 req. eexists _, _. split; [reflexivity|].
  destruct (session_start_recent MEM0 req start_of_request _ _ eq_refl)
    as (d & Hd & _ & _ & Hrec).
  injection Hd as <-. exact (Hrec twelve_records eq_refl).
Defined.

(** C10: [mem0_get_all] ignores its project argument.  For every user and
    any two projects it is the same computation, sending a [GET] whose only
    parameter is the user identifier; so two session starts for the same
    user that both succeed against the same service return the same
    [memories_count] and the same [recent] records, whatever their
    projects. *)
Theorem mem0_get_all_ignores_project
    (MEM0 : list request → request → option json)
    (user_id : str) (p1 p2 : option str) (w : world) :
  mem0_get_all MEM0 user_id p1 w = mem0_get_all MEM0 user_id p2 w
  ∧ sent (mem0_get_all MEM0 user_id p1 w).2
    = sent w ++ [GET "/v1/memories/" (JDict {[ "user_id" := JStr user_id ]})]
  ∧ ∀ q1 q2 resp1 resp2 w1 w2,
      session_start MEM0 {| start_user_id := user_id; start_project_id := p1;
                            query := q1 |} w = (Ok resp1, w1) →
      session_start MEM0 {| start_user_id := user_id; start_project_id := p2;
                            query := q2 |} w = (Ok resp2, w2) →
      memories_count resp1 = memories_count resp2
      ∧ recent (context resp1) = recent (context resp2).
Proof.
  split_and!.
  - reflexivity.
  - unfold mem0_get_all, send. simpl. by destruct (MEM0 _ _).
  - intros q1 q2 resp1 resp2 w1 w2 H1 H2.
    apply session_start_ok in H1 as (d1 & r1 & Hd1 & -> & Hl1 & Hu1 & _).
    apply session_start_ok in H2 as (d2 & r2 & Hd2 & -> & Hl2 & Hu2 & _).
    unfold list_request in *. simpl in *. by simplify_eq.
Qed.

Lemma mem0_get_all_ignores_project_witness :
  let MEM0 := scripted [Some (JDict {[ "results" := JList twelve_records ]})] in
  mem0_get_all MEM0 (py "alice") (Some (py "recall")) start_of_request
  = mem0_get_all MEM0 (py "alice") (Some (py "payroll")) start_of_request.
Proof.
  intros MEM0.
  exact (proj1 (mem0_get_all_ignores_project MEM0 (py "alice")
                  (Some (py "recall")) (Some (py "payroll")) start_of_request)).
Defined.

(** ** Session end *)

Section EndFacts.
Context (lower : str → str) (MEM0 : list request → request → option json)
  (utcnow : nat → str) (SIGNAL_KEYWORDS : list str).
Implicit Types (req : SessionEnd) (w : world) (signals : list str)
  (captured : list capture) (tick : nat).

(** The record persisted for one detected signal, stamped with the
    [tick]-th clock reading. *)
Definition signal_request req tick (signal : str) : request :=
  POST "/v1/memories/"
    (JDict (add_payload (extract_signal_context lower (transcript req) signal 200)
              (end_user_id req) (end_project_id req) (utcnow tick)
              (Some {[ "signal" := JStr signal;
                       "source" := JStr (py "auto-capture") ]}))).

(** One such record per signal, in the order of the signals. *)
Fixpoint signal_requests req tick signals : list request :=
  match signals with
  | [] => []
  | signal :: rest =>
      signal_request req tick signal :: signal_requests req (S tick) rest
  end.

(** The record that carries the first 5000 characters of the transcript. *)
Definition transcript_request req tick : request :=
  POST "/v1/memories/"
    (JDict (add_payload (py "Session transcript:" ++ [10%N]
                           ++ take 5000 (transcript req))
              (end_user_id req) (end_project_id req) (utcnow tick)
              (Some {[ "source" := JStr (py "session-end");
                       "full_transcript" := JBool true ]}))).

(** Everything a session end persists when no call fails: the signal
    records, then the transcript record if and only if the transcript is
    longer than 100 characters. *)
Definition end_requests req tick : list request :=
  let signals := detect_signals lower SIGNAL_KEYWORDS (transcript req) in
  signal_requests req tick signals
  ++ if 100 <? len (transcript req)
     then [transcript_request req (tick + length signals)%nat]
     else [].

(** The service answers each of [reqs], sent in this order after
    [history], with a JSON object. *)
Fixpoint answered (history reqs : list request) : Prop :=
  match reqs with
  | [] => True
  | r :: rest =>
      (∃ d, MEM0 history r = Some (JDict d)) ∧ answered (history ++ [r]) rest
  end.

Lemma length_signal_requests req tick signals :
  length (signal_requests req tick signals) = length signals.
Proof.
  revert tick. induction signals as [|s rest IH]; intros tick; simpl;
    [done | by rewrite IH].
Qed.

(** One turn of the loop. *)
Lemma capture_loop_step req signal rest captured w :
  capture_loop lower MEM0 utcnow req (signal :: rest) captured w
  = let r := signal_request req (clock_reads w) signal in
    let w' := World (sent w ++ [r]) (S (clock_reads w)) in
    match MEM0 (sent w) r with
    | Some (JDict d) =>
        capture_loop lower MEM0 utcnow req rest
          (captured ++ [{| signal := signal;
                           memory_id := default JNull (d !! "id") |}]) w'
    | Some _ => (inl AttributeError, w')
    | None => (inl HTTPError, w')
    end.
Proof.
  cbn [capture_loop]. unfold mbind at 1. unfold M_bind at 1.
  rewrite mem0_add_run. fold (signal_request req (clock_reads w) signal).
  cbv zeta. destruct (MEM0 _ _) as [[]|]; try done.
Qed.

(** A loop that runs to its end has sent one record per signal, in
    order, and has collected one capture per signal. *)
Lemma capture_loop_ok req signals captured w captured' w' :
  capture_loop lower MEM0 utcnow req signals captured w = (inr captured', w') →
  sent w' = sent w ++ signal_requests req (clock_reads w) signals
  ∧ clock_reads w' = (clock_reads w + length signals)%nat
  ∧ signal <$> captured' = (signal <$> captured) ++ signals.
Proof.
  revert captured w. induction signals as [|s rest IH]; intros captured w.
  - intros [= <- <-]. by rewrite !app_nil_r, Nat.add_0_r.
  - rewrite capture_loop_step. cbv zeta.
    destruct (MEM0 _ _) as [[]|]; try done.
    intros H. apply IH in H as (-> & -> & ->). simpl.
    rewrite fmap_app, <- !app_assoc. simpl. split_and!; [done | lia | done].
Qed.

(** The first failing [add] ends the loop: nothing is sent after it. *)
Lemma capture_loop_abort req signals captured w pre r post :
  signal_requests req (clock_reads w) signals = pre ++ r :: post →
  answered (sent w) pre →
  MEM0 (sent w ++ pre) r = None →
  capture_loop lower MEM0 utcnow req signals captured w
  = (inl HTTPError,
     World (sent w ++ pre ++ [r]) (clock_reads w + length pre + 1)).
Proof.
  revert captured w pre.
  induction signals as [|s rest IH]; intros captured w pre Hreqs Hans Hfail.
  - by destruct pre.
  - rewrite capture_loop_step. cbv zeta. simpl in Hreqs.
    destruct pre as [|r0 pre]; simplify_eq/=.
    + rewrite app_nil_r in Hfail. rewrite Hfail.
      do 2 f_equal. lia.
    + destruct Hans as [[d ->] Hans].
      rewrite (IH _ _ pre); simpl.
      * rewrite <- app_assoc. simpl. do 2 f_equal. lia.
      * done.
      * done.
      * by rewrite <- app_assoc.
Qed.

(** A loop whose every [add] is answered with an object runs to its end. *)
Lemma capture_loop_answered req signals captured w :
  answered (sent w) (signal_requests req (clock_reads w) signals) →
  ∃ captured',
    capture_loop lower MEM0 utcnow req signals captured w
    = (inr captured',
       World (sent w ++ signal_requests req (clock_reads w) signals)
             (clock_reads w + length signals)).
Proof.
  revert captured w. induction signals as [|s rest IH]; intros captured w.
  - intros _. exists captured. simpl. rewrite app_nil_r, Nat.add_0_r.
    by destruct w.
  - intros Hans. simpl in Hans. destruct Hans as [[d Hd] Hans].
    rewrite capture_loop_step. cbv zeta.
    rewrite Hd. edestruct IH as [captured' ->]; [exact Hans|].
    exists captured'. simpl. rewrite <- app_assoc. simpl. do 2 f_equal. lia.
Qed.

End EndFacts.

Section EndHandler.
Context (lower : str → str) (MEM0 : list request → request → option json)
  (utcnow : nat → str) (SIGNAL_KEYWORDS : list str).
Implicit Types (req : SessionEnd) (w : world).

Local Abbreviation detected req :=
  (detect_signals lower SIGNAL_KEYWORDS (transcript req)).

(** The transcript record is what [mem0_add] sends for the transcript. *)
Lemma transcript_add_run req w :
  mem0_add MEM0 utcnow
    (py "Session transcript:" ++ [10%N] ++ upto 5000 (transcript req))
    (end_user_id req) (end_project_id req)
    (Some {[ "source" := JStr (py "session-end");
             "full_transcript" := JBool true ]}) w
  = let r := transcript_request utcnow req (clock_reads w) in
    let w' := World (sent w ++ [r]) (S (clock_reads w)) in
    match MEM0 (sent w) r with
    | Some body => (inr body, w')
    | None => (inl HTTPError, w')
    end.
Proof.
  rewrite mem0_add_run. unfold transcript_request.
  by rewrite upto_nonneg by lia.
Qed.

(** A session end that returns normally has sent all of [end_requests]
    and reports every detected signal. *)
Lemma session_end_ok req w resp w' :
  session_end lower MEM0 utcnow SIGNAL_KEYWORDS req w = (Ok resp, w') →
  sent w' = sent w ++ end_requests lower utcnow SIGNAL_KEYWORDS req (clock_reads w)
  ∧ signals_detected resp = detected req
  ∧ signal <$> memories_captured resp = detected req.
Proof.
  unfold session_end, handler, session_end_body, end_requests.
  unfold mbind at 1. unfold M_bind at 1.
  destruct (capture_loop _ _ _ _ _ _ _) as [[e|captured] w1] eqn:Eloop;
    [done|].
  apply capture_loop_ok in Eloop as (Hsent & Hclock & Hsig).
  unfold mbind at 1. unfold M_bind at 1.
  destruct (100 <? len (transcript req)).
  - rewrite transcript_add_run. cbv zeta.
    destruct (MEM0 _ _); [|done]. intros [= <- <-]. simpl.
    by rewrite Hsent, Hclock, <- app_assoc.
  - intros [= <- <-]. simpl. by rewrite Hsent, app_nil_r.
Qed.

(** The first signal record that the service refuses ends the session
    end: no later signal and no transcript record is sent, and the caller
    gets the error alone. *)
Lemma session_end_abort_at req w pre r post :
  signal_requests lower utcnow req (clock_reads w) (detected req)
  = pre ++ r :: post →
  answered MEM0 (sent w) pre →
  MEM0 (sent w ++ pre) r = None →
  session_end lower MEM0 utcnow SIGNAL_KEYWORDS req w
  = (HTTP500 HTTPError,
     World (sent w ++ pre ++ [r]) (clock_reads w + length pre + 1)).
Proof.
  intros Hreqs Hans Hfail.
  unfold session_end, handler, session_end_body.
  unfold mbind at 1. unfold M_bind at 1.
  by rewrite (capture_loop_abort lower MEM0 utcnow req _ [] w pre r post).
Qed.

(** So does a refused transcript record, the last request of all. *)
Lemma session_end_abort_transcript req w :
  let reqs := signal_requests lower utcnow req (clock_reads w) (detected req) in
  let r := transcript_request utcnow req
             (clock_reads w + length (detected req)) in
  100 < len (transcript req) →
  answered MEM0 (sent w) reqs →
  MEM0 (sent w ++ reqs) r = None →
  session_end lower MEM0 utcnow SIGNAL_KEYWORDS req w
  = (HTTP500 HTTPError,
     World (sent w ++ reqs ++ [r]) (S (clock_reads w + length (detected req)))).
Proof.
  intros reqs r Hlen Hans Hfail.
  unfold session_end, handler, session_end_body.
  unfold mbind at 1. unfold M_bind at 1.
  destruct (capture_loop_answered lower MEM0 utcnow req _ [] w Hans)
    as [captured ->].
  unfold mbind at 1. unfold M_bind at 1.
  destruct (Z.ltb_spec 100 (len (transcript req))); [|lia].
  rewrite transcript_add_run. cbv zeta. simpl.
  fold reqs r. by rewrite Hfail, <- app_assoc.
Qed.

(** Where every request is answered with an object, the session end
    returns normally. *)
Lemma session_end_answered req w :
  answered MEM0 (sent w)
    (end_requests lower utcnow SIGNAL_KEYWORDS req (clock_reads w)) →
  ∃ resp w', session_end lower MEM0 utcnow SIGNAL_KEYWORDS req w = (Ok resp, w').
Proof.
  unfold end_requests. intros Hans.
  assert (Hsplit : ∀ history l1 l2,
    answered MEM0 history (l1 ++ l2) →
    answered MEM0 history l1 ∧ answered MEM0 (history ++ l1) l2).
  { intros history l1. revert history.
    induction l1 as [|x l1 IH]; intros history l2; simpl.
    - by rewrite app_nil_r.
    - intros [Hx Hrest]. apply IH in Hrest as [H1 H2].
      by rewrite <- app_assoc in H2. }
  apply Hsplit in Hans as [Hsig Htr].
  unfold session_end, handler, session_end_body.
  unfold mbind at 1. unfold M_bind at 1.
  destruct (capture_loop_answered lower MEM0 utcnow req _ [] w Hsig)
    as [captured ->].
  unfold mbind at 1. unfold M_bind at 1.
  destruct (100 <? len (transcript req)).
  - rewrite transcript_add_run. cbv zeta. simpl.
    destruct Htr as [[d ->] _]. by eexists _, _.
  - by eexists _, _.
Qed.

(** With nothing detected and a short transcript there is nothing to
    send. *)
Lemma session_end_nothing req w :
  detected req = [] → len (transcript req) ≤ 100 →
  session_end lower MEM0 utcnow SIGNAL_KEYWORDS req w
  = (Ok {| end_status := py "ok"; signals_detected := [];
           memories_captured := [] |}, w).
Proof.
  intros Hnone Hlen.
  unfold session_end, handler, session_end_body.
  rewrite Hnone.
  unfold mbind at 1. unfold M_bind at 1. simpl.
  unfold mbind at 1. unfold M_bind at 1.
  by destruct (Z.ltb_spec 100 (len (transcript req))); [lia|].
Qed.

(** The tags of the two kinds of record. *)
Lemma signal_request_tags req tick signal :
  ∃ payload m,
    signal_request lower utcnow req tick signal
    = POST "/v1/memories/" (JDict payload)
    ∧ payload !! "metadata" = Some (JDict m)
    ∧ m !! "signal" = Some (JStr signal)
    ∧ m !! "source" = Some (JStr (py "auto-capture")).
Proof.
  eexists _, _. split; [reflexivity|]. split; [reflexivity|].
  split; by apply add_metadata_caller.
Qed.

Lemma transcript_request_tags req tick :
  ∃ payload m,
    transcript_request utcnow req tick
    = POST "/v1/memories/" (JDict payload)
    ∧ payload !! "messages"
      = Some (JList [JDict {[ "role" := JStr (py "user");
                              "content" := JStr (py "Session transcript:"
                                ++ [10%N]
                                ++ take 5000 (transcript req)) ]}])
    ∧ payload !! "metadata" = Some (JDict m)
    ∧ m !! "source" = Some (JStr (py "session-end"))
    ∧ m !! "full_transcript" = Some (JBool true).
Proof.
  eexists _, _. split; [reflexivity|]. split; [reflexivity|].
  split; [reflexivity|]. split; by apply add_metadata_caller.
Qed.

End EndHandler.

(** ** The session-end claims *)

(** The default [SIGNAL_KEYWORDS]. *)
Definition default_keywords : list str :=
  py <$> ["remember"; "decided"; "architecture"; "important"]%string.

(** C2: in [session_end] the first failing [add] aborts the rest of the
    work flow.  With three detected signals, a first [add] that is answered
    and a second that fails, exactly two requests have been sent: the third
    signal's record and the transcript record are never attempted, and the
    caller gets a single [HTTP500] that carries no capture result. *)
Theorem session_end_aborts (lower : str → str)
    (MEM0 : list request → request → option json) (utcnow : nat → str)
    (SIGNAL_KEYWORDS : list str) (req : SessionEnd)
    (w : world) (s1 s2 s3 : str) (d1 : gmap string json) :
  let r1 := signal_request lower utcnow req (clock_reads w) s1 in
  let r2 := signal_request lower utcnow req (S (clock_reads w)) s2 in
  detect_signals lower SIGNAL_KEYWORDS (transcript req) = [s1; s2; s3] →
  MEM0 (sent w) r1 = Some (JDict d1) →
  MEM0 (sent w ++ [r1]) r2 = None →
  session_end lower MEM0 utcnow SIGNAL_KEYWORDS req w
  = (HTTP500 HTTPError, World (sent w ++ [r1; r2]) (clock_reads w + 2)).
Proof.
  intros r1 r2 Hdet Hfirst Hsecond.
  rewrite (session_end_abort_at lower MEM0 utcnow SIGNAL_KEYWORDS req w [r1] r2
             [signal_request lower utcnow req (S (S (clock_reads w))) s3]).
  - do 2 f_equal. simpl. lia.
  - by rewrite Hdet.
  - simpl. split; [by exists d1 | done].
  - done.
Qed.

Lemma session_end_aborts_witness :
  let MEM0 := scripted [Some (stored "m1"); None; Some (stored "m3");
                        Some (stored "m4")] in
  let req := {| end_user_id := py "alice";
                end_project_id := Some (py "recall");
                transcript := py "I remember we decided the architecture" |} in
  ∃ r1 r2,
    session_end sample_lower MEM0 ticking default_keywords req start_of_request
    = (HTTP500 HTTPError, World [r1; r2] 2).
Proof.
  intros MEM0 req. eexists _, _.
  exact (session_end_aborts sample_lower MEM0 ticking default_keywords req start_of_request
           (py "remember") (py "decided") (py "architecture")
           {[ "id" := JStr (py "m1") ]} eq_refl eq_refl eq_refl).
Defined.

(** C7: a session end that no failure interrupts sends exactly one [add]
    per detected signal, one after the other in the order of
    [detect_signals] (the configuration order), each tagged
    [{signal, source: "auto-capture"}], and then one more [add] with the
    first 5000 characters of the transcript, tagged
    [{source: "session-end", full_transcript: true}], if and only if the
    transcript is longer than 100 characters, whether or not a signal was
    found; it reports the detected signals and one capture per signal.  A
    transcript of length 50 in which no trigger occurs sends nothing and
    returns empty lists. *)
Theorem session_end_calls (lower : str → str)
    (MEM0 : list request → request → option json) (utcnow : nat → str)
    (SIGNAL_KEYWORDS : list str) (req : SessionEnd)
    (w : world) :
  let signals := detect_signals lower SIGNAL_KEYWORDS (transcript req) in
  (∀ resp w',
     session_end lower MEM0 utcnow SIGNAL_KEYWORDS req w = (Ok resp, w') →
     sent w' = sent w
               ++ signal_requests lower utcnow req (clock_reads w) signals
               ++ (if 100 <? len (transcript req)
                   then [transcript_request utcnow req
                           (clock_reads w + length signals)]
                   else [])
     ∧ length (signal_requests lower utcnow req (clock_reads w) signals)
       = length signals
     ∧ signals_detected resp = signals
     ∧ signal <$> memories_captured resp = signals)
  ∧ (∀ tick s, ∃ payload m,
       signal_request lower utcnow req tick s = POST "/v1/memories/" (JDict payload)
       ∧ payload !! "metadata" = Some (JDict m)
       ∧ m !! "signal" = Some (JStr s)
       ∧ m !! "source" = Some (JStr (py "auto-capture")))
  ∧ (∀ tick, ∃ payload m,
       transcript_request utcnow req tick
       = POST "/v1/memories/" (JDict payload)
       ∧ payload !! "messages"
         = Some (JList [JDict {[ "role" := JStr (py "user");
                                 "content" := JStr (py "Session transcript:"
                                   ++ [10%N]
                                   ++ take 5000 (transcript req)) ]}])
       ∧ payload !! "metadata" = Some (JDict m)
       ∧ m !! "source" = Some (JStr (py "session-end"))
       ∧ m !! "full_transcript" = Some (JBool true))
  ∧ (len (transcript req) = 50 → signals = [] →
     session_end lower MEM0 utcnow SIGNAL_KEYWORDS req w
     = (Ok {| end_status := py "ok"; signals_detected := [];
              memories_captured := [] |}, w)).
Proof.
  intros signals. split_and!.
  - intros resp w' Hrun.
    apply session_end_ok in Hrun as (Hsent & Hsig & Hcap).
    split_and!; [exact Hsent | apply length_signal_requests | done | done].
  - apply signal_request_tags.
  - apply transcript_request_tags.
  - intros Hlen Hnone. apply session_end_nothing; [done | lia].
Qed.

(** A transcript of 119 characters that mentions two of the triggers, in
    the opposite order of their configuration. *)
Definition long_transcript : str :=
  py "We decided to keep the schema small; please remember that every table needs an owner column and an audit trail as well.".

Lemma session_end_calls_witness :
  let MEM0 := scripted [Some (stored "m1"); Some (stored "m2");
                        Some (stored "m3")] in
  let req := {| end_user_id := py "alice";
                end_project_id := Some (py "recall");
                transcript := long_transcript |} in
  ∃ resp w',
    session_end sample_lower MEM0 ticking default_keywords req start_of_request
    = (Ok resp, w')
    ∧ signals_detected resp = [py "remember"; py "decided"]
    ∧ sent w' = [signal_request sample_lower ticking req 0 (py "remember");
                 signal_request sample_lower ticking req 1 (py "decided");
                 transcript_request ticking req 2].
Proof.
  intros MEM0 req. eexists _, _. split; [reflexivity|].
  pose proof (session_end_calls sample_lower MEM0 ticking default_keywords req
                start_of_request) as H.
  cbv zeta in H. destruct H as (H & _).
  destruct (H _ _ eq_refl) as (Hsent & _ & Hsig & _).
  split; [exact Hsig | exact Hsent].
Defined.

(** * Further properties of the detector and the extractor *)

Section MoreStrFacts.
Implicit Types (s m u X Y : str).

Lemma occurs_refl s : occurs s s.
Proof. exists [], []. by rewrite app_nil_r. Qed.

Lemma occurs_trans s u X : occurs s u → occurs u X → occurs s X.
Proof.
  intros (p1 & q1 & ->) (p2 & q2 & ->).
  exists (p2 ++ p1), (q1 ++ q2). by rewrite <- !app_assoc.
Qed.

Lemma occurs_fmap (f : N → N) s X : occurs s X → occurs (f <$> s) (f <$> X).
Proof. intros (p & q & ->). exists (f <$> p), (f <$> q). by rewrite !fmap_app. Qed.

Lemma Forall_occurs (P : N → Prop) s X : occurs s X → Forall P X → Forall P s.
Proof.
  intros (p & q & ->) H. apply Forall_app in H as [_ H].
  by apply Forall_app in H as [H _].
Qed.

Lemma occurs_upto w X : occurs (upto w X) X.
Proof.
  unfold upto. exists [], (drop (bound w (length X)) X).
  by rewrite take_drop.
Qed.

Lemma occurs_slice lo hi X : occurs (slice lo hi X) X.
Proof.
  unfold slice.
  set (a := bound lo (length X)). set (b := bound hi (length X)).
  exists (take a X), (drop (b - a) (drop a X)).
  by rewrite take_drop, take_drop.
Qed.

Lemma rstrip_prefix s : rstrip s `prefix_of` s.
Proof.
  unfold rstrip. destruct (lstrip_suffix (reverse s)) as [k Hk].
  exists (reverse k). apply (f_equal reverse) in Hk.
  by rewrite reverse_involutive, reverse_app in Hk.
Qed.

Lemma occurs_strip s : occurs (strip s) s.
Proof.
  unfold strip. destruct (lstrip_suffix s) as [l Hl].
  destruct (rstrip_prefix (lstrip s)) as [r Hr].
  exists l, r. by rewrite <- Hr.
Qed.

Lemma lstrip_head s c : head (lstrip s) = Some c → isspace c = false.
Proof.
  induction s as [|a s IH]; simpl; [done|].
  destruct (isspace a) eqn:E; [done|]. simpl. by intros [= <-].
Qed.

Lemma lstrip_solid_head s :
  (∀ c, head s = Some c → isspace c = false) → lstrip s = s.
Proof.
  destruct s as [|a s]; [done|]. intros H. simpl. by rewrite (H a).
Qed.

(** What [strip] returns has no white space at either end. *)
Lemma strip_solid s : solid (strip s).
Proof.
  unfold strip. split.
  - intros c Hc. apply (lstrip_head s).
    destruct (rstrip_prefix (lstrip s)) as [k Hk]. rewrite Hk.
    destruct (rstrip (lstrip s)); [done|]. done.
  - intros d Hd. unfold rstrip in Hd. rewrite last_reverse in Hd.
    by apply lstrip_head in Hd.
Qed.

Lemma solid_trimmed m : solid m → trimmed m.
Proof.
  intros [Hhd Hlast]. unfold trimmed, strip.
  rewrite (lstrip_solid_head m Hhd). unfold rstrip.
  rewrite lstrip_solid_head; [apply reverse_involutive|].
  intros c Hc. rewrite head_reverse in Hc. by apply Hlast.
Qed.

(** [strip] is idempotent. *)
Lemma strip_trimmed s : trimmed (strip s).
Proof. apply solid_trimmed, strip_solid. Qed.

Lemma slice_all {A} (l : list A) hi :
  len l ≤ hi → slice 0 (Z.min (len l) hi) l = l.
Proof.
  intros H. unfold slice, bound, len in *. simpl.
  match goal with
  | |- context [?z <? 0] => destruct (Z.ltb_spec z 0); [lia|]
  end.
  replace (Z.to_nat (0 `min` Z.of_nat (length l))) with 0%nat by lia.
  rewrite drop_0. apply take_ge. lia.
Qed.

End MoreStrFacts.

Section MoreDetectorFacts.
Implicit Types (T : list str) (X Y s : str).

Lemma filter_sublist_impl {A} (P Q : A → Prop)
    `{!∀ x, Decision (P x)} `{!∀ x, Decision (Q x)} (l : list A) :
  (∀ x, P x → Q x) → filter P l `sublist_of` filter Q l.
Proof.
  intros HPQ. induction l as [|x l IH]; [done|].
  rewrite !filter_cons. destruct (decide (P x)) as [HP|HP].
  - rewrite decide_True by auto. by apply sublist_skip.
  - destruct (decide (Q x)); [by apply sublist_cons | done].
Qed.

(** The test only looks at the lower-cased text. *)
Lemma matches_lower (lower : str → str) s X Y :
  lower X = lower Y → matches lower s X → matches lower s Y.
Proof. unfold matches. by intros ->. Qed.

(** On ASCII text, a match in a part of the text is a match in the text. *)
Lemma matches_mono (lower : str → str) s X Y :
  lower_on_ascii lower → Forall is_ascii Y → occurs X Y →
  matches lower s X → matches lower s Y.
Proof.
  intros Hlow HY HXY. unfold matches.
  rewrite (Hlow Y HY), (Hlow X (Forall_occurs _ _ _ HXY HY)).
  intros H. eapply occurs_trans; [exact H | by apply occurs_fmap].
Qed.

End MoreDetectorFacts.

(** X1: the detector looks at the keywords up to surrounding white space
    and at the text up to letter case.  Two keyword lists with the same
    trimmed entries, run on two texts with the same lower-casing, detect the
    same signals. *)
Theorem detect_signals_insensitive (lower : str → str) (T1 T2 : list str)
    (X Y : str) :
  strip <$> T1 = strip <$> T2 → lower X = lower Y →
  detect_signals lower T1 X = detect_signals lower T2 Y.
Proof.
  intros ET EX. rewrite !detect_signals_filter, ET.
  apply list_filter_iff. intros s. split; by apply matches_lower.
Qed.

Lemma detect_signals_insensitive_witness :
  detect_signals sample_lower [py "remember"; py " decided "] (py "We DECIDED")
  = detect_signals sample_lower [py " remember"; py "decided"]
      (py "we decided").
Proof.
  exact (detect_signals_insensitive sample_lower
           [py "remember"; py " decided "] [py " remember"; py "decided"]
           (py "We DECIDED") (py "we decided") eq_refl eq_refl).
Defined.

(** X2: on ASCII text, more text never loses a signal.  If the text [X] is
    a part of the ASCII text [Y], every signal detected in [X] is detected
    in [Y], in the same order. *)
Theorem detect_signals_monotone (lower : str → str) (T : list str)
    (X Y : str) :
  lower_on_ascii lower → Forall is_ascii Y → occurs X Y →
  detect_signals lower T X `sublist_of` detect_signals lower T Y.
Proof.
  intros Hlow HY HXY. rewrite !detect_signals_filter.
  apply filter_sublist_impl. intros s. by apply matches_mono.
Qed.

Lemma detect_signals_monotone_witness :
  detect_signals sample_lower default_keywords (py "we decided")
  `sublist_of`
  detect_signals sample_lower default_keywords
    (py "remember: we decided it is important").
Proof.
  apply detect_signals_monotone.
  - apply sample_lower_on_ascii.
  - ascii_text.
  - by exists (py "remember: "), (py " it is important").
Defined.

(** Beyond ASCII it can: a capital sigma is detected on its own and is not
    once a letter stands before it, where it lower-cases to the final
    sigma. *)
Lemma detect_signals_loses_signal :
  detect_signals sample_lower [[SIGMA]] [SIGMA] = [[SIGMA]]
  ∧ detect_signals sample_lower [[SIGMA]] [ALPHA; SIGMA] = [].
Proof. by split. Qed.

(** X3: a keyword that is blank once trimmed (an empty item of the
    configured list) is detected in every text, as the empty signal: the
    empty string lower-cases to itself, and occurs in every string. *)
Theorem detect_signals_blank_fires (lower : str → str) (T : list str)
    (X keyword : str) :
  lower [] = [] →
  keyword ∈ T → strip keyword = [] → [] ∈ detect_signals lower T X.
Proof.
  intros Hlow Hin Hblank. apply detect_signals_elem. split.
  - rewrite <- Hblank. by apply list_elem_of_fmap_2.
  - unfold matches. rewrite Hlow. apply occurs_nil.
Qed.

Lemma detect_signals_blank_fires_witness :
  py "" ∈ detect_signals sample_lower [py "remember"; py "  "]
            (py "nothing of note").
Proof.
  apply (detect_signals_blank_fires _ _ _ (py "  "));
    [reflexivity | | reflexivity].
  apply list_elem_of_further, list_elem_of_here.
Defined.

(** X4: the excerpt is always a part of the text, for every signal and
    every window (negative ones included); and whenever the lower-cased
    signal is found in the lower-cased text, the excerpt has no white space
    at either end. *)
Theorem extract_signal_context_substring (lower : str → str) (X s : str)
    (w : Z) :
  occurs (extract_signal_context lower X s w) X
  ∧ (matches lower s X → trimmed (extract_signal_context lower X s w)).
Proof.
  split.
  - destruct (decide (matches lower s X)) as [H|H].
    + destruct (extract_found lower X s w H) as (p & _ & _ & ->).
      eapply occurs_trans; [apply occurs_strip | apply occurs_slice].
    + rewrite extract_not_found by done. apply occurs_upto.
  - intros H. destruct (extract_found lower X s w H) as (p & _ & _ & ->).
    apply strip_trimmed.
Qed.

(** Where it is not found, the excerpt is the head of the text as it is,
    white space included: here the whole of [" ΑΣ "] for the signal [Σ]. *)
Lemma extract_signal_context_head_untrimmed :
  let X := py " " ++ [ALPHA; SIGMA] ++ py " " in
  extract_signal_context sample_lower X [SIGMA] 200 = X.
Proof. reflexivity. Qed.

(** X5: a window whose half covers the whole text, lower-cased or not, gives
    the whole text, trimmed: if the signal is found and both [len(X)] and
    [len(X.lower())] are at most [w // 2], the excerpt is [X.strip()],
    wherever the signal stands. *)
Theorem extract_signal_context_whole (lower : str → str) (X s : str)
    (w : Z) :
  matches lower s X → len X ≤ w / 2 → len (lower X) ≤ w / 2 →
  extract_signal_context lower X s w = strip X.
Proof.
  intros H Hw Hlw. destruct (extract_found lower X s w H) as (p & Hp & _ & ->).
  pose proof (find_le_len (lower s) (lower X)) as Hle. rewrite Hp in Hle.
  rewrite Z.max_l by lia.
  rewrite slice_all; [done|]. unfold len in *. lia.
Qed.

Lemma extract_signal_context_whole_witness :
  extract_signal_context sample_lower
    (py "  I remember we decided on Postgres ") (py "decided") 200
  = py "I remember we decided on Postgres".
Proof.
  apply (extract_signal_context_whole sample_lower
           (py "  I remember we decided on Postgres ") (py "decided") 200).
  - apply contains_matches. reflexivity.
  - by vm_compute.
  - by vm_compute.
Defined.

(** The second bound is needed: the lower-casing of [İ] has two code points,
    so the signal is found further right than it stands. *)
Lemma extract_signal_context_whole_shifted :
  let X := replicate 100 IDOT ++ py "x" in
  len X ≤ 202 / 2
  ∧ extract_signal_context sample_lower X (py "x") 202 = [IDOT; 120%N].
Proof. split; [by vm_compute | by vm_compute]. Qed.

(** X6: detector and extractor fit together.  Every signal that
    [detect_signals] reports for a text has no surrounding white space, its
    lower-casing occurs in the lower-cased text, and the excerpt that
    [session_end] takes for it (window 200) is at most [200 + len(signal)]
    characters long; where text and signal are ASCII, the excerpt holds an
    occurrence of the signal up to letter case. *)
Theorem detected_signal_excerpt (lower : str → str) (T : list str)
    (X s : str) :
  s ∈ detect_signals lower T X →
  trimmed s ∧ matches lower s X
  ∧ len (extract_signal_context lower X s 200) ≤ 200 + len s
  ∧ (lower_on_ascii lower → Forall is_ascii X → Forall is_ascii s →
     occurs_ci lower s (extract_signal_context lower X s 200)).
Proof.
  intros Hin. apply detect_signals_elem in Hin as [HT Ho].
  apply list_elem_of_fmap in HT as (keyword & -> & _).
  pose proof (strip_trimmed keyword) as Ht.
  split_and!; [done | done | by apply extract_length |].
  intros Hlow HX Hs. apply extract_holds_signal; try done.
  by apply occurs_ci_ascii.
Qed.

Lemma detected_signal_excerpt_witness :
  occurs_ci sample_lower (py "decided")
    (extract_signal_context sample_lower
       (py "Today we DECIDED to use Postgres") (py "decided") 200).
Proof.
  refine (proj2 (proj2 (proj2 (detected_signal_excerpt sample_lower
            [py "remember"; py " decided "]
            (py "Today we DECIDED to use Postgres") (py "decided") _))) _ _ _).
  - apply list_elem_of_here.
  - apply sample_lower_on_ascii.
  - ascii_text.
  - ascii_text.
Defined.

(** * Configuration *)

(** [s.split(sep)] for a one-character separator: the pieces between the
    separators, empty pieces included; never the empty list. *)
Fixpoint split (sep : N) (s : str) : list str :=
  match s with
  | [] => [[]]
  | c :: s' =>
      if decide (c = sep) then [] :: split sep s'
      else match split sep s' with
           | piece :: pieces => (c :: piece) :: pieces
           | [] => [[c]]
           end
  end.

(** [sep.join(pieces)] *)
Fixpoint join (sep : N) (pieces : list str) : str :=
  match pieces with
  | [] => []
  | [piece] => piece
  | piece :: rest => piece ++ sep :: join sep rest
  end.

(** The separator of the configured list. *)
Definition COMMA : N := 44%N.

(** [os.getenv("SIGNAL_KEYWORDS", "remember,...").split(",")], given the
    value of the environment variable, if it is set. *)
Definition signal_keywords (env : option str) : list str :=
  split COMMA
    (default (py "remember,decided,architecture,important") env).

Example signal_keywords_unset : signal_keywords None = default_keywords.
Proof. reflexivity. Qed.

Section SplitFacts.
Implicit Types (sep c : N) (s : str).

Lemma split_not_nil sep s : split sep s ≠ [].
Proof.
  destruct s as [|c s]; simpl; [done|].
  destruct (decide (c = sep)); [done|]. by destruct (split sep s).
Qed.

Lemma join_split sep s : join sep (split sep s) = s.
Proof.
  induction s as [|c s IH]; simpl; [done|].
  pose proof (split_not_nil sep s) as Hne.
  destruct (decide (c = sep)) as [->|Hc].
  - destruct (split sep s) as [|piece rest] eqn:E; [done|].
    simpl in *. by rewrite IH.
  - destruct (split sep s) as [|piece rest] eqn:E; [done|].
    destruct rest; simpl in *; by rewrite <- IH.
Qed.

Lemma split_no_sep sep s : Forall (λ piece, sep ∉ piece) (split sep s).
Proof.
  induction s as [|c s IH]; simpl.
  - constructor; [apply not_elem_of_nil | constructor].
  - destruct (decide (c = sep)) as [->|Hc].
    + constructor; [apply not_elem_of_nil | done].
    + pose proof (split_not_nil sep s) as Hne.
      destruct (split sep s) as [|piece rest]; [done|].
      apply Forall_cons in IH as [Hp Hrest]. constructor; [|done].
      rewrite not_elem_of_cons. split; [congruence | done].
Qed.

Lemma length_split sep s :
  length (split sep s) = S (length (filter (λ c, c = sep) s)).
Proof.
  induction s as [|c s IH]; simpl; [done|].
  rewrite filter_cons. destruct (decide (c = sep)); simpl; [by rewrite IH|].
  destruct (split sep s); simpl in *; [done | lia].
Qed.

End SplitFacts.

(** X7: whatever the environment variable holds, the configured keyword
    list is never empty, none of its entries has a comma, it has one entry
    more than the value has commas, and joining the entries with commas
    gives the value back. *)
Theorem signal_keywords_roundtrip (value : str) :
  signal_keywords (Some value) ≠ []
  ∧ Forall (λ keyword, COMMA ∉ keyword) (signal_keywords (Some value))
  ∧ length (signal_keywords (Some value))
    = S (length (filter (λ c, c = COMMA) value))
  ∧ join COMMA (signal_keywords (Some value)) = value.
Proof.
  unfold signal_keywords. simpl. split_and!.
  - apply split_not_nil.
  - apply split_no_sep.
  - apply length_split.
  - apply join_split.
Qed.

(** * The capture, search and health handlers *)

Record MemoryCapture := {
  capture_user_id : str;
  capture_project_id : option str;
  content : str;
  scope : str
}.

Record SearchRequest := {
  search_query : str;
  search_user_id : option str;
  search_project_id : option str;
  limit : Z
}.

(** The memory-capture response [{status, memory_id}]. *)
Record capture_response := { capture_status : str; captured_id : json }.

(** [HealthResponse] *)
Record HealthResponse := {
  health_status : str;
  health_timestamp : str;
  services : gmap string str
}.

Section Handlers.

Variable MEM0 : list request → request → option json.
Variable utcnow : nat → str.

(** The answer to [GET /health]: its status code, or [None] when the
    request raises. *)
Variable HEALTH : list request → option Z.

(** The body of the [try] block of [memory_capture]. *)
Definition memory_capture_body (req : MemoryCapture) : M capture_response :=
  result ← mem0_add MEM0 utcnow (content req) (capture_user_id req)
             (capture_project_id req)
             (Some {[ "scope" := JStr (scope req);
                      "source" := JStr (py "explicit-capture") ]});
  id ← dict_get result "id" JNull;
  mret {| capture_status := py "ok"; captured_id := id |}.

Definition memory_capture (req : MemoryCapture)
    : world → reply capture_response * world :=
  handler (memory_capture_body req).

(** The body of the [try] block of [memory_search]. *)
Definition memory_search_body (req : SearchRequest) : M json :=
  results ← mem0_search MEM0 (search_query req) (search_user_id req)
              (search_project_id req) (limit req);
  mret results.

Definition memory_search (req : SearchRequest) : world → reply json * world :=
  handler (memory_search_body req).

(** [all(v == "healthy" for v in services.values())] *)
Definition all_healthy (services : gmap string str) : bool :=
  forallb (λ v, bool_decide (v = py "healthy")) (map_to_list services).*2.

(** [health_check]: the probe of Mem0 sits in its own [try], so the handler
    itself raises nothing. *)
Definition health_check (w : world) : HealthResponse * world :=
  let services : gmap string str := {[ "orchestrator" := py "healthy" ]} in
  let probe := GET "/health" JNull in
  let answer := HEALTH (sent w) in
  let w1 := World (sent w ++ [probe]) (clock_reads w) in
  let services :=
    match answer with
    | Some status_code =>
        <["mem0" := if status_code =? 200 then py "healthy"
                    else py "unhealthy"]> services
    | None => <["mem0" := py "unreachable"]> services
    end in
  let overall := if all_healthy services then py "healthy"
                 else py "degraded" in
  ({| health_status := overall;
      health_timestamp := utcnow (clock_reads w1);
      services := services |},
   World (sent w1) (S (clock_reads w1))).

End Handlers.

(** X8: what a search sends.  The parameters always carry [query] and
    [limit]; [user_id] is sent exactly when a non-empty user is given, and a
    [filters.project_id] exactly when a non-empty project is given, so an
    absent or empty user or project puts no restriction on the search. *)
Theorem search_params_keys (query : str) (user_id project_id : option str)
    (limit : Z) :
  let params := search_params query user_id project_id limit in
  params !! "query" = Some (JStr query)
  ∧ params !! "limit" = Some (JInt limit)
  ∧ params !! "user_id"
    = (if truthy user_id then Some (opt_str user_id) else None)
  ∧ params !! "filters"
    = (if truthy project_id
       then Some (JDict {[ "project_id" := opt_str project_id ]}) else None)
  ∧ dom params
    = {[ "query"; "limit" ]}
      ∪ (if truthy user_id then {[ "user_id" ]} else ∅)
      ∪ (if truthy project_id then {[ "filters" ]} else ∅).
Proof.
  intros params. subst params. unfold search_params.
  destruct (truthy user_id), (truthy project_id); split_and!;
    try (by simplify_map_eq);
    rewrite ?dom_insert_L, dom_singleton_L; set_solver.
Qed.

(** An empty user or project is like none at all. *)
Lemma search_params_empty query limit :
  search_params query (Some []) (Some []) limit
  = search_params query None None limit.
Proof. reflexivity. Qed.

(** X9: [memory_search] is a pass-through.  It sends exactly one search
    request and reads no clock; it answers with the service's JSON body as
    it came, whatever its shape, and with an error exactly when the request
    fails. *)
Theorem memory_search_passthrough
    (MEM0 : list request → request → option json) (req : SearchRequest)
    (w : world) :
  let r := POST "/v1/memories/search/"
             (JDict (search_params (search_query req) (search_user_id req)
                       (search_project_id req) (limit req))) in
  (memory_search MEM0 req w).2 = World (sent w ++ [r]) (clock_reads w)
  ∧ (∀ body, MEM0 (sent w) r = Some body ↔
             (memory_search MEM0 req w).1 = Ok body)
  ∧ (MEM0 (sent w) r = None ↔
     (memory_search MEM0 req w).1 = HTTP500 HTTPError).
Proof.
  intros r. unfold memory_search, handler, memory_search_body, mem0_search,
    send, mbind, M_bind, mret, M_ret.
  fold r. destruct (MEM0 (sent w) r) as [body|]; simpl; split_and!;
    try done; try (intros ?); split; congruence.
Qed.

(** X10: [memory_capture] sends exactly one [add], tagged with the scope
    and [source: "explicit-capture"], with the content as given, and reads
    the clock once.  It answers [ok] with the [id] of the service's answer
    ([null] when the answer has none) if the answer is a JSON object; if
    the request fails or the answer is not an object it answers with an
    error, although the request has been sent. *)
Theorem memory_capture_outcome
    (MEM0 : list request → request → option json) (utcnow : nat → str)
    (req : MemoryCapture) (w : world) :
  let payload :=
    add_payload (content req) (capture_user_id req) (capture_project_id req)
      (utcnow (clock_reads w))
      (Some {[ "scope" := JStr (scope req);
               "source" := JStr (py "explicit-capture") ]}) in
  let r := POST "/v1/memories/" (JDict payload) in
  (memory_capture MEM0 utcnow req w).2
  = World (sent w ++ [r]) (S (clock_reads w))
  ∧ (memory_capture MEM0 utcnow req w).1
    = match MEM0 (sent w) r with
      | Some (JDict d) =>
          Ok {| capture_status := py "ok";
                captured_id := default JNull (d !! "id") |}
      | Some _ => HTTP500 AttributeError
      | None => HTTP500 HTTPError
      end
  ∧ ∃ m, payload !! "metadata" = Some (JDict m)
         ∧ m !! "scope" = Some (JStr (scope req))
         ∧ m !! "source" = Some (JStr (py "explicit-capture")).
Proof.
  intros payload r.
  assert (Hrun : memory_capture MEM0 utcnow req w
    = (match MEM0 (sent w) r with
       | Some (JDict d) =>
           Ok {| capture_status := py "ok";
                 captured_id := default JNull (d !! "id") |}
       | Some _ => HTTP500 AttributeError
       | None => HTTP500 HTTPError
       end, World (sent w ++ [r]) (S (clock_reads w)))).
  { unfold memory_capture, handler, memory_capture_body.
    unfold mbind at 1. unfold M_bind at 1. rewrite mem0_add_run.
    fold payload. fold r. cbv zeta.
    by destruct (MEM0 (sent w) r) as [[]|]. }
  rewrite Hrun. split_and!; [done | done |].
  eexists. split; [reflexivity|]. split; by apply add_metadata_caller.
Qed.

Section HealthFacts.
Context (utcnow : nat → str) (HEALTH : list request → option Z).

Lemma all_healthy_up :
  all_healthy (<["mem0" := py "healthy"]> {[ "orchestrator" := py "healthy" ]})
  = true.
Proof. by vm_compute. Qed.

Lemma all_healthy_down :
  all_healthy (<["mem0" := py "unhealthy"]> {[ "orchestrator" := py "healthy" ]})
  = false.
Proof. by vm_compute. Qed.

Lemma all_healthy_unreachable :
  all_healthy (<["mem0" := py "unreachable"]> {[ "orchestrator" := py "healthy" ]})
  = false.
Proof. by vm_compute. Qed.

End HealthFacts.

(** X11: [health_check] always answers.  It probes Mem0 once; the overall
    status is [healthy] exactly when the probe comes back with status 200
    and [degraded] otherwise; the [services] map has exactly the two entries
    [orchestrator] (always [healthy]) and [mem0] ([healthy] on 200,
    [unhealthy] on any other status, [unreachable] when the probe
    raises). *)
Theorem health_check_status (utcnow : nat → str)
    (HEALTH : list request → option Z) (w : world) :
  let resp := (health_check utcnow HEALTH w).1 in
  (health_status resp = py "healthy" ↔ HEALTH (sent w) = Some 200)
  ∧ (health_status resp = py "degraded" ↔ HEALTH (sent w) ≠ Some 200)
  ∧ services resp !! "orchestrator" = Some (py "healthy")
  ∧ services resp !! "mem0"
    = Some (match HEALTH (sent w) with
            | Some status_code =>
                if status_code =? 200 then py "healthy" else py "unhealthy"
            | None => py "unreachable"
            end)
  ∧ dom (services resp) = {[ "orchestrator"; "mem0" ]}
  ∧ health_timestamp resp = utcnow (clock_reads w)
  ∧ (health_check utcnow HEALTH w).2
    = World (sent w ++ [GET "/health" JNull]) (S (clock_reads w)).
Proof.
  intros resp. subst resp. unfold health_check. cbv zeta.
  assert (Hdom : ∀ v : str,
    dom (<["mem0" := v]> ({[ "orchestrator" := py "healthy" ]}
                           : gmap string str))
    = {[ "orchestrator"; "mem0" ]}).
  { intros v. rewrite dom_insert_L, dom_singleton_L. set_solver. }
  destruct (HEALTH (sent w)) as [status_code|].
  - destruct (Z.eqb_spec status_code 200) as [->|Hne].
    + rewrite all_healthy_up. cbn [fst snd health_status services
        health_timestamp].
      split; [done|]. split; [split; [by vm_compute | done]|].
      split; [by rewrite lookup_insert_ne|].
      split; [by rewrite lookup_insert_eq|]. by split.
    + rewrite all_healthy_down. cbn [fst snd health_status services
        health_timestamp].
      split; [split; [by vm_compute | congruence]|].
      split; [split; [congruence | done]|].
      split; [by rewrite lookup_insert_ne|].
      split; [by rewrite lookup_insert_eq|]. by split.
  - rewrite all_healthy_unreachable. cbn [fst snd health_status services
      health_timestamp].
    split; [split; [by vm_compute | done]|].
    split; [done|].
    split; [by rewrite lookup_insert_ne|].
    split; [by rewrite lookup_insert_eq|]. by split.
Qed.

(** * Further properties of the session handlers *)

Section EndLoopFacts.
Context (lower : str → str) (MEM0 : list request → request → option json)
  (utcnow : nat → str).
Implicit Types (req : SessionEnd) (w : world) (signals : list str)
  (captured : list capture).

(** Whatever its outcome, the loop has sent a prefix of the signal records
    and has read the clock once per record sent. *)
Lemma capture_loop_trace req signals captured w :
  ∃ k : nat,
    (k ≤ length signals)%nat
    ∧ sent (capture_loop lower MEM0 utcnow req signals captured w).2
      = sent w ++ take k (signal_requests lower utcnow req (clock_reads w) signals)
    ∧ clock_reads (capture_loop lower MEM0 utcnow req signals captured w).2
      = (clock_reads w + k)%nat
    ∧ (signals ≠ [] → (0 < k)%nat)
    ∧ (∀ captured', (capture_loop lower MEM0 utcnow req signals captured w).1
                    = inr captured' → k = length signals).
Proof.
  revert captured w. induction signals as [|s rest IH]; intros captured w.
  - exists 0%nat. simpl. rewrite app_nil_r, Nat.add_0_r. by split_and!.
  - rewrite capture_loop_step. cbv zeta.
    destruct (MEM0 _ _) as [[| | | | |d]|];
      try (exists 1%nat; simpl; rewrite take_0;
           split_and!; [lia | done | lia | lia | done]).
    edestruct (IH (captured ++ [{| signal := s;
                     memory_id := default JNull (d !! "id") |}])
                 (World (sent w ++ [signal_request lower utcnow req (clock_reads w) s])
                    (S (clock_reads w))))
      as (k & Hk & Hsent & Hclock & _ & Hok).
    exists (S k). simpl in *. rewrite Hsent, Hclock, <- app_assoc. simpl.
    split_and!; [lia | done | lia | lia |].
    intros captured' H. by rewrite (Hok _ H).
Qed.

(** A loop that runs to its end had every record answered with an object,
    and pairs each signal with the [id] of the answer to its record. *)
Lemma capture_loop_answers req signals captured w captured' w' :
  capture_loop lower MEM0 utcnow req signals captured w = (inr captured', w') →
  answered MEM0 (sent w) (signal_requests lower utcnow req (clock_reads w) signals)
  ∧ ∃ new, captured' = captured ++ new
      ∧ length new = length signals
      ∧ ∀ (i : nat) c, new !! i = Some c →
          ∃ s d, signals !! i = Some s
            ∧ MEM0 (sent w ++ take i (signal_requests lower utcnow req
                                        (clock_reads w) signals))
                (signal_request lower utcnow req (clock_reads w + i) s)
              = Some (JDict d)
            ∧ c = {| signal := s; memory_id := default JNull (d !! "id") |}.
Proof.
  revert captured w. induction signals as [|s rest IH]; intros captured w.
  - intros [= <- <-]. split; [done|]. exists []. rewrite app_nil_r.
    by split_and!.
  - rewrite capture_loop_step. cbv zeta.
    destruct (MEM0 _ _) as [[| | | | |d]|] eqn:Hd; try done.
    intros H. apply IH in H as (Hans & new & -> & Hlen & Hnew).
    simpl in *. split; [split; [by exists d | done]|].
    eexists (_ :: new). rewrite <- app_assoc. split; [done|].
    split; [simpl; by rewrite Hlen|].
    intros [|i] c Hc; simpl in *.
    + simplify_eq. exists s, d. rewrite app_nil_r, Nat.add_0_r. done.
    + destruct (Hnew i c Hc) as (s' & d' & Hs' & Hd' & ->).
      exists s', d'. split; [done|]. split; [|done].
      rewrite <- app_assoc in Hd'. simpl in Hd'.
      by replace (clock_reads w + S i)%nat with (S (clock_reads w + i)) by lia.
Qed.

(** An answer that is not an object ends the loop as well: [.get] fails on
    it, after the record has been sent. *)
Lemma capture_loop_malformed req signals captured w pre r post v :
  signal_requests lower utcnow req (clock_reads w) signals = pre ++ r :: post →
  answered MEM0 (sent w) pre →
  MEM0 (sent w ++ pre) r = Some v → (∀ d, v ≠ JDict d) →
  capture_loop lower MEM0 utcnow req signals captured w
  = (inl AttributeError,
     World (sent w ++ pre ++ [r]) (clock_reads w + length pre + 1)).
Proof.
  revert captured w pre.
  induction signals as [|s rest IH];
    intros captured w pre Hreqs Hans Hv Hnot.
  - by destruct pre.
  - rewrite capture_loop_step. cbv zeta. simpl in Hreqs.
    destruct pre as [|r0 pre]; simplify_eq/=.
    + rewrite app_nil_r in Hv. rewrite Hv.
      destruct v; try (do 2 f_equal; lia). by destruct (Hnot d).
    + destruct Hans as [[d ->] Hans].
      rewrite (IH _ _ pre); simpl.
      * rewrite <- app_assoc. simpl. do 2 f_equal. lia.
      * done.
      * done.
      * by rewrite <- app_assoc.
      * done.
Qed.

End EndLoopFacts.

Section EndTraceFacts.
Context (lower : str → str) (MEM0 : list request → request → option json)
  (utcnow : nat → str) (SIGNAL_KEYWORDS : list str).
Implicit Types (req : SessionEnd) (w : world).

Local Abbreviation detected req :=
  (detect_signals lower SIGNAL_KEYWORDS (transcript req)).
Local Abbreviation run req w :=
  (session_end lower MEM0 utcnow SIGNAL_KEYWORDS req w).
Local Abbreviation planned req w :=
  (end_requests lower utcnow SIGNAL_KEYWORDS req (clock_reads w)).

Lemma length_detect_signals (T : list str) (X : str) :
  (length (detect_signals lower T X) ≤ length T)%nat.
Proof.
  rewrite detect_signals_filter.
  etrans; [apply sublist_length, sublist_filter|]. by rewrite length_fmap.
Qed.

Lemma length_end_requests req tick :
  (length (end_requests lower utcnow SIGNAL_KEYWORDS req tick)
   ≤ length SIGNAL_KEYWORDS + 1)%nat.
Proof.
  unfold end_requests. rewrite length_app, length_signal_requests.
  pose proof (length_detect_signals SIGNAL_KEYWORDS (transcript req)).
  destruct (100 <? len (transcript req)); simpl; lia.
Qed.

(** Whatever its outcome, a session end has sent a prefix of what it
    planned, reading the clock once per request. *)
Lemma session_end_trace req w :
  ∃ k : nat,
    (k ≤ length (planned req w))%nat
    ∧ sent (run req w).2 = sent w ++ take k (planned req w)
    ∧ clock_reads (run req w).2 = (clock_reads w + k)%nat
    ∧ (planned req w ≠ [] → (0 < k)%nat)
    ∧ (∀ resp, (run req w).1 = Ok resp → k = length (planned req w)).
Proof.
  destruct (capture_loop_trace lower MEM0 utcnow req (detected req) [] w)
    as (k & Hk & Hsent & Hclock & Hpos & Hok).
  pose proof (length_signal_requests lower utcnow req (clock_reads w) (detected req))
    as Hlen.
  destruct (run req w) as [out w'] eqn:Erun. simpl.
  unfold session_end, handler, session_end_body in Erun.
  unfold mbind at 1 in Erun. unfold M_bind at 1 in Erun.
  unfold end_requests.
  destruct (capture_loop _ _ _ _ _ _ _) as [[e|captured] w1] eqn:Eloop;
    simpl in Hsent, Hclock, Hok.
  - injection Erun as <- <-.
    exists k. rewrite length_app, take_app_le by lia.
    split_and!; [lia | done | done | | done].
    intros _. apply Hpos. intros E. rewrite E in Eloop. done.
  - specialize (Hok _ eq_refl). subst k.
    rewrite take_ge in Hsent by lia.
    unfold mbind at 1 in Erun. unfold M_bind at 1 in Erun.
    destruct (100 <? len (transcript req)).
    + rewrite transcript_add_run in Erun. cbv zeta in Erun.
      rewrite Hsent, Hclock in Erun.
      exists (S (length (detected req))).
      rewrite length_app, take_ge by (rewrite length_app; simpl; lia).
      destruct (MEM0 _ _); simpl in Erun; injection Erun as <- <-;
        simpl; rewrite <- app_assoc;
        (split_and!; [lia | done | lia | lia |]);
        intros; rewrite Hlen; simpl; lia.
    + simpl in Erun. injection Erun as <- <-.
      exists (length (detected req)).
      rewrite length_app, app_nil_r, take_ge by lia. simpl.
      split_and!; [lia | done | done | | intros; lia].
      intros Hne. destruct (detected req); [done | simpl; lia].
Qed.

End EndTraceFacts.

(** X12: whatever its outcome, a session end only appends to what was sent
    before, sends a prefix of the planned records (never one out of order,
    never one twice), sends at most one request per configured keyword plus
    one, and reads the clock exactly once per request it sends. *)
Theorem session_end_bounded (lower : str → str)
    (MEM0 : list request → request → option json) (utcnow : nat → str)
    (SIGNAL_KEYWORDS : list str) (req : SessionEnd)
    (w : world) :
  let w' := (session_end lower MEM0 utcnow SIGNAL_KEYWORDS req w).2 in
  (∃ k : nat,
     sent w' = sent w
       ++ take k (end_requests lower utcnow SIGNAL_KEYWORDS req (clock_reads w)))
  ∧ (length (sent w') ≤ length (sent w) + length SIGNAL_KEYWORDS + 1)%nat
  ∧ (clock_reads w' + length (sent w)
     = clock_reads w + length (sent w'))%nat.
Proof.
  intros w'. subst w'.
  destruct (session_end_trace lower MEM0 utcnow SIGNAL_KEYWORDS req w)
    as (k & Hk & Hsent & Hclock & _).
  pose proof (length_end_requests lower utcnow SIGNAL_KEYWORDS req (clock_reads w)).
  split_and!.
  - by exists k.
  - rewrite Hsent, length_app, length_take. lia.
  - rewrite Hsent, Hclock, length_app, length_take. lia.
Qed.

(** X13: an answer to a signal's [add] that is not a JSON object aborts
    the session end like a failed request: the record has been sent, no
    later record is, and the caller gets an error. *)
Theorem session_end_malformed (lower : str → str)
    (MEM0 : list request → request → option json) (utcnow : nat → str)
    (SIGNAL_KEYWORDS : list str) (req : SessionEnd)
    (w : world) (pre : list request) (r : request) (post : list request)
    (v : json) :
  signal_requests lower utcnow req (clock_reads w)
    (detect_signals lower SIGNAL_KEYWORDS (transcript req)) = pre ++ r :: post →
  answered MEM0 (sent w) pre →
  MEM0 (sent w ++ pre) r = Some v → (∀ d, v ≠ JDict d) →
  session_end lower MEM0 utcnow SIGNAL_KEYWORDS req w
  = (HTTP500 AttributeError,
     World (sent w ++ pre ++ [r]) (clock_reads w + length pre + 1)).
Proof.
  intros Hreqs Hans Hv Hnot.
  unfold session_end, handler, session_end_body.
  unfold mbind at 1. unfold M_bind at 1.
  by rewrite (capture_loop_malformed lower MEM0 utcnow req _ [] w pre r post v).
Qed.

Lemma session_end_malformed_witness :
  let MEM0 := scripted [Some (stored "m1"); Some (JList [stored "m2"]);
                        Some (stored "m3")] in
  let req := {| end_user_id := py "alice";
                end_project_id := Some (py "recall");
                transcript := py "I remember we decided the architecture" |} in
  session_end sample_lower MEM0 ticking default_keywords req start_of_request
  = (HTTP500 AttributeError,
     World [signal_request sample_lower ticking req 0 (py "remember");
            signal_request sample_lower ticking req 1 (py "decided")] 2).
Proof.
  intros MEM0 req.
  refine (session_end_malformed sample_lower MEM0 ticking default_keywords req
            start_of_request [signal_request sample_lower ticking req 0 (py "remember")]
            (signal_request sample_lower ticking req 1 (py "decided"))
            [signal_request sample_lower ticking req 2 (py "architecture")]
            (JList [stored "m2"]) eq_refl _ eq_refl _).
  - split; [by eexists | exact I].
  - intros d. discriminate.
Defined.

(** X14: a session end that returns normally reports one capture per
    detected signal, in order, and the [memory_id] of each is the [id] of
    the service's answer to that signal's record ([null] when the answer has
    no [id]). *)
Theorem session_end_capture_ids (lower : str → str)
    (MEM0 : list request → request → option json) (utcnow : nat → str)
    (SIGNAL_KEYWORDS : list str) (req : SessionEnd)
    (w : world) (resp : end_response) (w' : world) :
  session_end lower MEM0 utcnow SIGNAL_KEYWORDS req w = (Ok resp, w') →
  let signals := detect_signals lower SIGNAL_KEYWORDS (transcript req) in
  length (memories_captured resp) = length signals
  ∧ ∀ (i : nat) c, memories_captured resp !! i = Some c →
      ∃ s d, signals !! i = Some s
        ∧ MEM0 (sent w ++ take i (signal_requests lower utcnow req
                                    (clock_reads w) signals))
            (signal_request lower utcnow req (clock_reads w + i) s)
          = Some (JDict d)
        ∧ c = {| signal := s; memory_id := default JNull (d !! "id") |}.
Proof.
  intros Hrun signals. subst signals.
  unfold session_end, handler, session_end_body in Hrun.
  unfold mbind at 1 in Hrun. unfold M_bind at 1 in Hrun.
  destruct (capture_loop _ _ _ _ _ _ _) as [[e|captured] w1] eqn:Eloop;
    [done|].
  apply capture_loop_answers in Eloop as (_ & new & -> & Hlen & Hnew).
  unfold mbind at 1 in Hrun. unfold M_bind at 1 in Hrun.
  destruct (100 <? len (transcript req)).
  - rewrite transcript_add_run in Hrun. cbv zeta in Hrun.
    destruct (MEM0 _ _); [|done]. by injection Hrun as <- <-.
  - by injection Hrun as <- <-.
Qed.

Lemma session_end_capture_ids_witness :
  let MEM0 := scripted [Some (stored "m1"); Some (JDict ∅)] in
  let req := {| end_user_id := py "alice";
                end_project_id := Some (py "recall");
                transcript := py "I remember we decided on Postgres" |} in
  ∃ resp w',
    session_end sample_lower MEM0 ticking default_keywords req start_of_request
    = (Ok resp, w')
    ∧ memories_captured resp
      = [ {| signal := py "remember"; memory_id := JStr (py "m1") |};
          {| signal := py "decided"; memory_id := JNull |} ]
    ∧ length (memories_captured resp) = 2%nat.
Proof.
  intros MEM0 req. eexists _, _. split; [reflexivity|].
  split; [reflexivity|].
  exact (proj1 (session_end_capture_ids sample_lower MEM0 ticking default_keywords req
                  start_of_request _ _ eq_refl)).
Defined.

(** X15: nothing is deduplicated.  Ending the same session twice, both
    times normally, persists every record twice: the second run sends the
    planned records again, stamped with later clock readings, and reports
    the same signals. *)
Theorem session_end_twice (lower : str → str)
    (MEM0 : list request → request → option json) (utcnow : nat → str)
    (SIGNAL_KEYWORDS : list str) (req : SessionEnd)
    (w : world) (resp1 resp2 : end_response) (w1 w2 : world) :
  session_end lower MEM0 utcnow SIGNAL_KEYWORDS req w = (Ok resp1, w1) →
  session_end lower MEM0 utcnow SIGNAL_KEYWORDS req w1 = (Ok resp2, w2) →
  let tick := clock_reads w in
  let n := length (end_requests lower utcnow SIGNAL_KEYWORDS req tick) in
  sent w2 = sent w ++ end_requests lower utcnow SIGNAL_KEYWORDS req tick
                   ++ end_requests lower utcnow SIGNAL_KEYWORDS req (tick + n)
  ∧ signals_detected resp2 = signals_detected resp1
  ∧ signal <$> memories_captured resp2 = signal <$> memories_captured resp1.
Proof.
  intros H1 H2 tick n. subst tick n.
  destruct (session_end_trace lower MEM0 utcnow SIGNAL_KEYWORDS req w)
    as (k & _ & _ & Hclock & _ & Hk).
  rewrite H1 in Hclock, Hk. simpl in Hclock, Hk.
  rewrite (Hk _ eq_refl) in Hclock.
  apply session_end_ok in H1 as (Hs1 & Hd1 & Hc1).
  apply session_end_ok in H2 as (Hs2 & Hd2 & Hc2).
  rewrite Hs2, Hs1, Hclock, <- app_assoc. split_and!; congruence.
Qed.

Lemma session_end_twice_witness :
  let MEM0 := scripted [Some (stored "m1"); Some (stored "m2");
                        Some (stored "m3"); Some (stored "m4")] in
  let req := {| end_user_id := py "alice";
                end_project_id := Some (py "recall");
                transcript := py "I remember we decided on Postgres" |} in
  ∃ resp1 w1 resp2 w2,
    session_end sample_lower MEM0 ticking default_keywords req start_of_request
    = (Ok resp1, w1)
    ∧ session_end sample_lower MEM0 ticking default_keywords req w1 = (Ok resp2, w2)
    ∧ sent w2 = [signal_request sample_lower ticking req 0 (py "remember");
                 signal_request sample_lower ticking req 1 (py "decided");
                 signal_request sample_lower ticking req 2 (py "remember");
                 signal_request sample_lower ticking req 3 (py "decided")].
Proof.
  intros MEM0 req. eexists _, _, _, _.
  split; [reflexivity|]. split; [reflexivity|].
  exact (proj1 (session_end_twice sample_lower MEM0 ticking default_keywords req
                  start_of_request _ _ _ _ eq_refl eq_refl)).
Defined.

(** X16: a session end returns normally exactly when every signal record
    is answered with a JSON object and, for a transcript longer than 100
    characters, the transcript record is answered at all: the body of that
    last answer is not looked at. *)
Theorem session_end_succeeds_iff (lower : str → str)
    (MEM0 : list request → request → option json) (utcnow : nat → str)
    (SIGNAL_KEYWORDS : list str) (req : SessionEnd) (w : world) :
  let signals := detect_signals lower SIGNAL_KEYWORDS (transcript req) in
  let records := signal_requests lower utcnow req (clock_reads w) signals in
  (∃ resp w', session_end lower MEM0 utcnow SIGNAL_KEYWORDS req w = (Ok resp, w'))
  ↔ answered MEM0 (sent w) records
    ∧ (100 < len (transcript req) →
       is_Some (MEM0 (sent w ++ records)
                  (transcript_request utcnow req
                     (clock_reads w + length signals)))).
Proof.
  intros signals records. subst signals records.
  unfold session_end, handler, session_end_body.
  unfold mbind at 1. unfold M_bind at 1. split.
  - intros (resp & w' & Hrun).
    destruct (capture_loop _ _ _ _ _ _ _) as [[e|captured] w1] eqn:Eloop;
      [done|].
    pose proof (capture_loop_ok _ _ _ _ _ _ _ _ _ Eloop) as (Hsent & Hclock & _).
    apply capture_loop_answers in Eloop as (Hans & _).
    split; [done|]. intros Hlen.
    unfold mbind at 1 in Hrun. unfold M_bind at 1 in Hrun.
    destruct (Z.ltb_spec 100 (len (transcript req))); [|lia].
    rewrite transcript_add_run in Hrun. cbv zeta in Hrun.
    rewrite Hsent, Hclock in Hrun. by destruct (MEM0 _ _).
  - intros [Hans Htr].
    destruct (capture_loop_answered lower MEM0 utcnow req _ [] w Hans)
      as [captured ->].
    unfold mbind at 1. unfold M_bind at 1.
    destruct (Z.ltb_spec 100 (len (transcript req))) as [Hlen|Hlen].
    + rewrite transcript_add_run. cbv zeta. simpl.
      destruct (Htr Hlen) as [body ->]. by eexists _, _.
    + by eexists _, _.
Qed.

(** X17: a session start returns normally exactly when the listing is
    answered with a JSON object whose [results] (or the default [[]]) can
    be sliced, that is a list or a string, and, if a non-empty query is
    given, the search is answered with a JSON object. *)
Theorem session_start_succeeds_iff
    (MEM0 : list request → request → option json) (req : SessionStart)
    (w : world) :
  (∃ resp w', session_start MEM0 req w = (Ok resp, w'))
  ↔ (∃ d, MEM0 (sent w) (list_request req) = Some (JDict d)
          ∧ is_Some (json_upto 10 (results_of d)))
    ∧ (truthy (query req) = true →
       ∃ d', MEM0 (sent w ++ [list_request req]) (search_request req)
             = Some (JDict d')).
Proof.
  split.
  - intros (resp & w' & Hrun).
    apply session_start_ok in Hrun
      as (d & results & Hd & -> & _ & Hupto & _ & _ & Hrel).
    split; [exists d; split; [done | by eexists]|].
    intros Hq. rewrite Hq in Hrel. destruct Hrel as (d' & Hd' & _).
    by exists d'.
  - intros [(d & Hd & [v Hv]) Hsearch].
    unfold session_start, handler, session_start_body, mem0_get_all,
      mem0_search, send, dict_get, lift, raise, mbind, M_bind, mret, M_ret.
    fold (list_request req). fold (search_request req). cbv beta zeta.
    rewrite Hd. unfold results_of in Hv. cbn [sent clock_reads].
    destruct (truthy (query req)).
    + destruct (Hsearch eq_refl) as [d' Hd'].
      change (sent (World (sent w ++ [list_request req]) (clock_reads w)))
        with (sent w ++ [list_request req]).
      rewrite Hd'.
      destruct (d !! "results") as [[]|]; simplify_eq/=; by eexists _, _.
    + destruct (d !! "results") as [[]|]; simplify_eq/=; by eexists _, _.
Qed.

(** X18: a listing answer without a [results] key counts as no memories.
    Without a query, such a session start returns normally with
    [memories_count = 0] and empty [recent] and [relevant]. *)
Theorem session_start_no_results
    (MEM0 : list request → request → option json) (req : SessionStart)
    (w : world) (d : gmap string json) :
  truthy (query req) = false →
  MEM0 (sent w) (list_request req) = Some (JDict d) →
  d !! "results" = None →
  session_start MEM0 req w
  = (Ok {| start_status := py "ok";
           start_owner := start_user_id req;
           start_project := start_project_id req;
           memories_count := 0;
           context := {| recent := JList []; relevant := JList [] |} |},
     World (sent w ++ [list_request req]) (clock_reads w)).
Proof.
  intros Hq Hd Hnone.
  unfold session_start, handler, session_start_body, mem0_get_all,
    mem0_search, send, dict_get, lift, raise, mbind, M_bind, mret, M_ret.
  fold (list_request req). simpl. by rewrite Hd, Hq, Hnone.
Qed.

Lemma session_start_no_results_witness :
  let req := {| start_user_id := py "alice";
                start_project_id := Some (py "recall"); query := Some [] |} in
  ∃ resp w', session_start (scripted [Some (JDict ∅)]) req start_of_request
             = (Ok resp, w')
    ∧ memories_count resp = 0.
Proof.
  intros req. eexists _, _. split.
  - exact (session_start_no_results (scripted [Some (JDict ∅)]) req
             start_of_request ∅ eq_refl eq_refl eq_refl).
  - reflexivity.
Defined.

(** The content of the transcript record: the 20 characters
    ["Session transcript:\n"], then the transcript cut at 5000. *)
Lemma length_transcript_content (X : str) :
  len (py "Session transcript:" ++ [10%N] ++ take 5000 X)
  = 20 + Z.min 5000 (len X).
Proof.
  unfold len. rewrite !length_app, length_take.
  change (length (py "Session transcript:")) with 19%nat.
  rewrite !Nat2Z.inj_add, Nat2Z.inj_min.
  change (Z.of_nat 5000) with 5000. simpl. lia.
Qed.

(** X19: what [session_end] sends of a long transcript is bounded.  A
    session end of a transcript of more than 100 characters that returns
    normally has sent, as its last request, an [add] whose content is the
    20 characters ["Session transcript:\n"] followed by the transcript cut
    at 5000 characters: [20 + min(5000, len(transcript))] characters in
    all, so between 121 and 5020, and the whole transcript when that has at
    most 5000 characters. *)
Theorem session_end_transcript_bounded (lower : str → str)
    (MEM0 : list request → request → option json) (utcnow : nat → str)
    (SIGNAL_KEYWORDS : list str) (req : SessionEnd) (w : world)
    (resp : end_response) (w' : world) :
  100 < len (transcript req) →
  session_end lower MEM0 utcnow SIGNAL_KEYWORDS req w = (Ok resp, w') →
  ∃ payload body,
    last (sent w') = Some (POST "/v1/memories/" (JDict payload))
    ∧ payload !! "messages"
      = Some (JList [JDict {[ "role" := JStr (py "user");
                              "content" := JStr body ]}])
    ∧ body = py "Session transcript:" ++ [10%N] ++ take 5000 (transcript req)
    ∧ len body = 20 + Z.min 5000 (len (transcript req))
    ∧ 120 < len body ≤ 5020
    ∧ (len (transcript req) ≤ 5000 →
       body = py "Session transcript:" ++ [10%N] ++ transcript req).
Proof.
  intros Hlong Hrun. apply session_end_ok in Hrun as (Hsent & _ & _).
  unfold end_requests in Hsent.
  destruct (Z.ltb_spec 100 (len (transcript req))); [|lia].
  rewrite !app_assoc in Hsent. rewrite Hsent, last_snoc.
  eexists _, _. split; [reflexivity|]. split; [reflexivity|].
  split; [reflexivity|]. rewrite length_transcript_content.
  split; [done|]. split; [lia|].
  intros Hle. rewrite take_ge; [done|].
  apply Nat2Z.inj_le. by change (Z.of_nat 5000) with 5000.
Qed.

Lemma session_end_transcript_bounded_witness :
  let MEM0 := scripted [Some (stored "m1"); Some (stored "m2");
                        Some (stored "m3")] in
  let req := {| end_user_id := py "alice";
                end_project_id := Some (py "recall");
                transcript := long_transcript |} in
  ∃ resp w' payload body,
    session_end sample_lower MEM0 ticking default_keywords req start_of_request
    = (Ok resp, w')
    ∧ last (sent w') = Some (POST "/v1/memories/" (JDict payload))
    ∧ payload !! "messages"
      = Some (JList [JDict {[ "role" := JStr (py "user");
                              "content" := JStr body ]}])
    ∧ len body = 139.
Proof.
  intros MEM0 req.
  destruct (session_end_transcript_bounded sample_lower MEM0 ticking
              default_keywords req start_of_request _ _
              ltac:(by vm_compute) eq_refl)
    as (payload & body & Hlast & Hmsg & _ & Hlen & _).
  eexists _, _, payload, body. split; [reflexivity|].
  split; [exact Hlast|]. split; [exact Hmsg|]. exact Hlen.
Defined.
